(** * Verification model of the scanrx-backend token and response cache layer

    Shallow embedding of [api/services/cache-service.js] (in-memory TTL cache),
    [api/services/emdex-service.js] (token manager, raw request with the
    401 retry, cached request wrapper), the mock EMDEX service it calls in
    mock mode ([mock-emdex-service.js]) and [api/services/drug-transformer.js]
    (result transformers, de-duplication, id and list parsing). *)

From Stdlib Require Import String Ascii List ZArith Lia Bool.
From Stdlib Require Import Sorting.Permutation Sorting.Sorted Floats.SpecFloat.
Import ListNotations.
Set Warnings "-register-all".
Open Scope Z_scope.
Open Scope list_scope.

(** ** JavaScript values *)

Module Js.

(** JSON-like values as produced by [response.json()] and passed as request
    parameters.  Numbers are restricted to integers; [JUndef] is [undefined]. *)
Inductive jv : Type :=
| JUndef
| JNull
| JBool (b : bool)
| JNum (z : Z)
| JStr (s : string)
| JArr (l : list jv)
| JObj (fs : list (string * jv)).

Local Open Scope string_scope.

(** JavaScript truthiness ([if (x)], [x || y], [!x]). *)
Definition truthy (v : jv) : bool :=
  match v with
  | JUndef | JNull => false
  | JBool b => b
  | JNum z => negb (Z.eqb z 0)
  | JStr s => negb (String.eqb s EmptyString)
  | JArr _ | JObj _ => true
  end.

(** Property read [o[k]] on an object: first own property with that name. *)
Fixpoint prop_lookup (fs : list (string * jv)) (k : string) : jv :=
  match fs with
  | [] => JUndef
  | (k', v) :: fs' => if String.eqb k' k then v else prop_lookup fs' k
  end.

Definition get_prop (o : jv) (k : string) : jv :=
  match o with
  | JObj fs => prop_lookup fs k
  | _ => JUndef
  end.

(** [a || b] *)
Definition js_or (a b : jv) : jv := if truthy a then a else b.

(** *** Strings.  Strings are sequences of code units; text is taken in the
    ASCII range, where [toLowerCase] maps [A-Z] and [trim] removes the
    white-space and line-terminator characters TAB, LF, VT, FF, CR and SP. *)

Definition lower_char (c : ascii) : ascii :=
  let n := nat_of_ascii c in
  if (65 <=? n)%nat && (n <=? 90)%nat then ascii_of_nat (n + 32) else c.

Fixpoint toLowerCase (s : string) : string :=
  match s with
  | EmptyString => EmptyString
  | String c s' => String (lower_char c) (toLowerCase s')
  end.

Definition is_ws (c : ascii) : bool :=
  let n := nat_of_ascii c in ((9 <=? n)%nat && (n <=? 13)%nat) || (n =? 32)%nat.

Fixpoint drop_ws (l : list ascii) : list ascii :=
  match l with
  | [] => []
  | c :: l' => if is_ws c then drop_ws l' else l
  end.

Definition trim (s : string) : string :=
  string_of_list_ascii (rev (drop_ws (rev (drop_ws (list_ascii_of_string s))))).

(** Decimal digits of a natural number ([String(n)] for an integer [n]). *)
Definition digit_char (d : N) : ascii := ascii_of_N (48 + d).

Fixpoint dec_aux (fuel : nat) (n : N) (acc : string) : string :=
  match fuel with
  | O => acc
  | S f =>
      let acc' := String (digit_char (N.modulo n 10)) acc in
      if (n <? 10)%N then acc' else dec_aux f (N.div n 10) acc'
  end.

Definition dec_of_N (n : N) : string := dec_aux (S (N.size_nat n)) n EmptyString.

Definition dec_of_Z (z : Z) : string :=
  match z with
  | Zneg p => String "-" (dec_of_N (Npos p))
  | _ => dec_of_N (Z.to_N z)
  end.

(** [String(v)]; an array is [v.join(",")], with [null] and [undefined]
    elements written as the empty string. *)
Fixpoint to_js_string (v : jv) : string :=
  match v with
  | JUndef => "undefined"
  | JNull => "null"
  | JBool true => "true"
  | JBool false => "false"
  | JNum z => dec_of_Z z
  | JStr s => s
  | JArr l =>
      String.concat ","
        ((fix go (l : list jv) : list string :=
            match l with
            | [] => []
            | (JUndef | JNull) :: r => EmptyString :: go r
            | x :: r => to_js_string x :: go r
            end) l)
  | JObj _ => "[object Object]"
  end.

(** [Array.prototype.sort()] without comparator on strings: ascending by code
    units; insertion sort. *)
Fixpoint insert_str (x : string) (l : list string) : list string :=
  match l with
  | [] => [x]
  | y :: l' => if String.leb x y then x :: y :: l' else y :: insert_str x l'
  end.

Fixpoint sort_strings (l : list string) : list string :=
  match l with
  | [] => []
  | x :: l' => insert_str x (sort_strings l')
  end.

End Js.
Import Js.

(** ** The TTL cache ([cache-service.js]) *)

Module CacheService.

(** [const MAX_CACHE_SIZE = 1000;] *)
Definition MAX_CACHE_SIZE : Z := 1000.

(** The item stored by [set]: [{ data, createdAt, expiresAt, ttl }]. *)
Record item : Type := mkItem {
  data : jv;
  createdAt : Z;
  expiresAt : Z;
  ttl : Z
}.

(** The module-level [stats] object. *)
Record stats_t : Type := mkStats {
  hits : Z;
  misses : Z;
  sets : Z;
  evictions : Z
}.

(** The JavaScript [Map] [cache], as its entries in insertion order, together
    with [stats]: the whole mutable state of the module. *)
Record cstate : Type := mkC {
  store : list (string * item);
  stats : stats_t
}.

Definition init : cstate := mkC [] (mkStats 0 0 0 0).

(** *** The [Map] operations *)

(** [cache.get(key)] *)
Fixpoint map_get (m : list (string * item)) (k : string) : option item :=
  match m with
  | [] => None
  | (k', it) :: m' => if String.eqb k' k then Some it else map_get m' k
  end.

(** [cache.set(key, v)]: an existing key keeps its position in the iteration
    order and gets the new value; a new key goes to the end. *)
Fixpoint map_set (m : list (string * item)) (k : string) (v : item)
  : list (string * item) :=
  match m with
  | [] => [(k, v)]
  | (k', it) :: m' =>
      if String.eqb k' k then (k', v) :: m' else (k', it) :: map_set m' k v
  end.

(** [cache.delete(key)]: returns whether an entry was removed. *)
Fixpoint map_delete (m : list (string * item)) (k : string)
  : bool * list (string * item) :=
  match m with
  | [] => (false, [])
  | (k', it) :: m' =>
      if String.eqb k' k then (true, m')
      else let '(b, r) := map_delete m' k in (b, (k', it) :: r)
  end.

Definition size (c : cstate) : Z := Z.of_nat (length (store c)).

Definition with_store (c : cstate) (m : list (string * item)) : cstate :=
  mkC m (stats c).

Definition incr_hits (s : stats_t) : stats_t :=
  mkStats (hits s + 1) (misses s) (sets s) (evictions s).
Definition incr_misses (s : stats_t) : stats_t :=
  mkStats (hits s) (misses s + 1) (sets s) (evictions s).
Definition incr_sets (s : stats_t) : stats_t :=
  mkStats (hits s) (misses s) (sets s + 1) (evictions s).
Definition incr_evictions (s : stats_t) : stats_t :=
  mkStats (hits s) (misses s) (sets s) (evictions s + 1).

(** *** [get(key)]; [now] is [Date.now()].  [null] is [JNull]. *)
Definition get (c : cstate) (key : string) (now : Z) : jv * cstate :=
  match map_get (store c) key with
  | None => (JNull, mkC (store c) (incr_misses (stats c)))
  | Some it =>
      if expiresAt it <? now then
        (JNull, mkC (snd (map_delete (store c) key)) (incr_misses (stats c)))
      else (data it, mkC (store c) (incr_hits (stats c)))
  end.

(** *** [evictOldest()] *)

(** [Math.ceil(MAX_CACHE_SIZE * 0.1)]: the double product [1000 * 0.1] is
    exactly [100], so this is the integer ceiling of a tenth. *)
Definition itemsToRemove : nat := Z.to_nat ((MAX_CACHE_SIZE + 9) / 10).

(** [entries.sort((a, b) => a[1].createdAt - b[1].createdAt)]: the sort of
    [Array.prototype] is stable, so equal creation times keep the iteration
    order of the map.  Insertion sort, stable. *)
Fixpoint insert_by_created (e : string * item) (l : list (string * item))
  : list (string * item) :=
  match l with
  | [] => [e]
  | e' :: l' =>
      if createdAt (snd e) <=? createdAt (snd e') then e :: e' :: l'
      else e' :: insert_by_created e l'
  end.

Fixpoint sort_by_created (l : list (string * item)) : list (string * item) :=
  match l with
  | [] => []
  | e :: l' => insert_by_created e (sort_by_created l')
  end.

(** The loop body: [cache.delete(entries[i][0]); stats.evictions++;] *)
Fixpoint evict_loop (victims : list (string * item)) (c : cstate) : cstate :=
  match victims with
  | [] => c
  | (k, _) :: vs =>
      evict_loop vs (mkC (snd (map_delete (store c) k)) (incr_evictions (stats c)))
  end.

(** [for (let i = 0; i < itemsToRemove && i < entries.length; i++)] *)
Definition evictOldest (c : cstate) : cstate :=
  let entries := sort_by_created (store c) in
  evict_loop (firstn itemsToRemove entries) c.

(** *** [set(key, data, ttlSeconds)] *)
Definition set (c : cstate) (key : string) (d : jv) (ttlSeconds : Z) (now : Z)
  : cstate :=
  let c1 := if MAX_CACHE_SIZE <=? size c then evictOldest c else c in
  mkC (map_set (store c1) key (mkItem d now (now + ttlSeconds * 1000) ttlSeconds))
      (incr_sets (stats c1)).

(** *** [del(key)] *)
Definition del (c : cstate) (key : string) : bool * cstate :=
  let '(b, m) := map_delete (store c) key in (b, with_store c m).

(** *** [clear()]: [cache.clear()]; [stats] is not touched. *)
Definition clear (c : cstate) : cstate := with_store c [].

(** *** [getTTL(key)]: [Math.ceil(remaining / 1000)] for positive integer
    [remaining] is [(remaining + 999) / 1000]. *)
Definition getTTL (c : cstate) (key : string) (now : Z) : Z * cstate :=
  match map_get (store c) key with
  | None => (0, c)
  | Some it =>
      let remaining := expiresAt it - now in
      ((if 0 <? remaining then (remaining + 999) / 1000 else 0), c)
  end.

(** *** [has(key)] *)
Definition has (c : cstate) (key : string) (now : Z) : bool * cstate :=
  match map_get (store c) key with
  | None => (false, c)
  | Some it =>
      if expiresAt it <? now then (false, with_store c (snd (map_delete (store c) key)))
      else (true, c)
  end.

(** *** [generateKey(prefix, params)]

    [params] is the object's own properties, each name once.  The names come
    from [Object.keys(params)] and are sorted at once, so only the set of
    names matters; the model lists them in property order. *)
Definition normalize_part (params : list (string * jv)) (key : string)
  : option string :=
  match prop_lookup params key with
  | JNull | JUndef => None
  | value =>
      let normalizedValue := trim (toLowerCase (to_js_string value)) in
      Some (key ++ "=" ++ normalizedValue)%string
  end.

Definition normalizedParts (params : list (string * jv)) : list string :=
  flat_map (fun key => match normalize_part params key with
                       | Some p => [p]
                       | None => []
                       end)
           (sort_strings (map fst params)).

Definition generateKey (prefix : string) (params : list (string * jv)) : string :=
  let paramsString := String.concat "_" (normalizedParts params) in
  if truthy (JStr paramsString) then (prefix ++ "_" ++ paramsString)%string
  else prefix.

(** *** Sequences of calls to the module *)
Inductive op : Type :=
| OGet (k : string)
| OSet (k : string) (d : jv) (ttlSeconds : Z)
| ODel (k : string)
| OClear
| OGetTTL (k : string)
| OHas (k : string).

Definition step (c : cstate) (now : Z) (o : op) : cstate :=
  match o with
  | OGet k => snd (get c k now)
  | OSet k d t => set c k d t now
  | ODel k => snd (del c k)
  | OClear => clear c
  | OGetTTL k => snd (getTTL c k now)
  | OHas k => snd (has c k now)
  end.

(** Each call carries the [Date.now()] it observes. *)
Fixpoint run_from (c : cstate) (tr : list (Z * op)) : cstate :=
  match tr with
  | [] => c
  | (now, o) :: tr' => run_from (step c now o) tr'
  end.

Definition run (tr : list (Z * op)) : cstate := run_from init tr.

(** A concrete sequence of calls: [set("k<n>", 1, 60)] at time [n] for
    [n = 0 .. 999]. *)
Definition key_of (n : nat) : string := String "k" (dec_of_N (N.of_nat n)).

Definition fill_trace : list (Z * op) :=
  map (fun n => (Z.of_nat n, OSet (key_of n) (JNum 1) 60)) (seq 0 1000).

End CacheService.

(** ** The EMDEX service ([emdex-service.js], with [mock-emdex-service.js]) *)

Module Emdex.
Import CacheService.
Local Open Scope string_scope.

(** [EmdexError] codes. *)
Inductive code : Type := AUTH_FAILED | NETWORK_ERROR | REQUEST_FAILED.

(** What a [throw] carries: an [EmdexError], or any other exception (a
    rejected [fetch], a failed body read, a [SyntaxError] from
    [response.json()], a [TypeError] from reading a property of [null] or
    calling a string or array method on a value that has none). *)
Inductive exn : Type :=
| EmdexError (c : code)
| OtherError.

(** The body of a response: its stream fails while it is read (both
    [response.text()] and [response.json()] reject), or it reads as a text
    that is not JSON, or as the JSON value [v]. *)
Inductive resp_body : Type :=
| BodyCut
| BodyText
| BodyJson (v : jv).

(** What [fetch] yields: a transport failure (the promise rejects), or a
    response with its status and its body. *)
Inductive response : Type :=
| NetFail
| Resp (status : Z) (body : resp_body).

(** The requests the service sends, in order. *)
Inductive request : Type :=
| LoginReq (url email password : string)
| DataReq (url : string) (token : jv).

(** *** Numbers

    JavaScript numbers are IEEE 754 binary64 values; [SpecFloat] gives their
    values (signed zeros, infinities, [NaN]) and correctly rounded
    arithmetic. *)

Definition number : Type := spec_float.
Definition prec : Z := 53.
Definition emax : Z := 1024.

(** The number nearest to the integer [z] (ties to even). *)
Definition num_of_Z (z : Z) : number := binary_normalize prec emax z 0 false.

Definition num_add (x y : number) : number := SFadd prec emax x y.
Definition num_sub (x y : number) : number := SFsub prec emax x y.
Definition num_mul (x y : number) : number := SFmul prec emax x y.

(** [x < y]; [false] when either is [NaN]. *)
Definition num_lt (x y : number) : bool := SFltb x y.

(** A number is falsy when it is [+0], [-0] or [NaN]. *)
Definition num_truthy (x : number) : bool :=
  match x with
  | S754_zero _ | S754_nan => false
  | _ => true
  end.

(** The number nearest to [(-1)^neg * m * 10^e] (ties to even): an exact
    product for [e >= 0]; for [e < 0] the quotient of [m] by
    [10^k = 5^k * 2^k], rounded once by [SFdiv]. *)
Definition decimal_value (neg : bool) (m e : Z) : number :=
  match m with
  | Z0 => S754_zero neg
  | Zpos p =>
      match e with
      | Zneg k => SFdiv prec emax (S754_finite neg p 0) (S754_finite false (Pos.pow 5 k) (Zpos k))
      | _ => binary_normalize prec emax (if neg then - (m * 10 ^ e) else m * 10 ^ e) 0 neg
      end
  | Zneg _ => S754_nan
  end.

(** *** [ToNumber] on strings (StringToNumber): leading and trailing white
    space is ignored, the empty string is [0], and otherwise the whole text
    must be a [StrDecimalLiteral] (an optional sign, then [Infinity] or
    digits with an optional fraction and exponent) or, without a sign, a
    [0x], [0o] or [0b] integer; anything else is [NaN]. *)

Definition digit_of (c : ascii) : Z :=
  let n := Z.of_nat (nat_of_ascii c) in
  if (48 <=? n)%Z && (n <=? 57)%Z then n - 48
  else if (97 <=? n)%Z && (n <=? 122)%Z then n - 87
  else if (65 <=? n)%Z && (n <=? 90)%Z then n - 55
  else 36.

Definition is_digit (c : ascii) : bool := (digit_of c <? 10)%Z.

(** The longest prefix of decimal digits, and the rest. *)
Fixpoint span_digits (l : list ascii) : list ascii * list ascii :=
  match l with
  | c :: l' =>
      if is_digit c then let '(d, r) := span_digits l' in (c :: d, r) else ([], l)
  | [] => ([], [])
  end.

(** The value of digits in base [b], after [acc]. *)
Fixpoint digits_val (b : Z) (l : list ascii) (acc : Z) : Z :=
  match l with
  | [] => acc
  | c :: l' => digits_val b l' (acc * b + digit_of c)
  end.

(** [DecimalDigits] after [e] or [E], with an optional sign. *)
Definition parse_exponent (l : list ascii) : option Z :=
  let '(sgn, l1) :=
    match l with
    | "+"%char :: r => (1, r)
    | "-"%char :: r => (-1, r)
    | _ => (1, l)
    end in
  match span_digits l1 with
  | ((_ :: _) as d, []) => Some (sgn * digits_val 10 d 0)
  | _ => None
  end.

Definition is_exp_mark (c : ascii) : bool := Ascii.eqb c "e"%char || Ascii.eqb c "E"%char.

(** [StrUnsignedDecimalLiteral] without [Infinity]: [(m, e)] for the value
    [m * 10^e]. *)
Definition parse_unsigned_decimal (l : list ascii) : option (Z * Z) :=
  let '(ip, r1) := span_digits l in
  let '(fp, r2) :=
    match r1 with
    | "."%char :: r => span_digits r
    | _ => ([], r1)
    end in
  match ip, fp with
  | [], [] => None
  | _, _ =>
      let m := digits_val 10 (ip ++ fp)%list 0 in
      let shift := Z.of_nat (length fp) in
      match r2 with
      | [] => Some (m, - shift)
      | c :: r =>
          if is_exp_mark c then
            match parse_exponent r with
            | Some x => Some (m, x - shift)
            | None => None
            end
          else None
      end
  end.

(** [StrDecimalLiteral] *)
Definition parse_signed (l : list ascii) : number :=
  let '(neg, l') :=
    match l with
    | "-"%char :: r => (true, r)
    | "+"%char :: r => (false, r)
    | _ => (false, l)
    end in
  if String.eqb (string_of_list_ascii l') "Infinity" then S754_infinity neg else
  match parse_unsigned_decimal l' with
  | Some (m, e) => decimal_value neg m e
  | None => S754_nan
  end.

(** The base announced by the letter after a leading [0]. *)
Definition radix_of (c : ascii) : option Z :=
  if Ascii.eqb c "x"%char || Ascii.eqb c "X"%char then Some 16
  else if Ascii.eqb c "o"%char || Ascii.eqb c "O"%char then Some 8
  else if Ascii.eqb c "b"%char || Ascii.eqb c "B"%char then Some 2
  else None.

(** [NonDecimalIntegerLiteral] digits: at least one, all below the base. *)
Definition parse_radix (b : Z) (l : list ascii) : option Z :=
  match l with
  | [] => None
  | _ => if forallb (fun c => (digit_of c <? b)%Z) l then Some (digits_val b l 0) else None
  end.

Definition str_to_number (s : string) : number :=
  match list_ascii_of_string (trim s) with
  | [] => S754_zero false
  | ("0"%char :: c :: r) as l =>
      match radix_of c with
      | Some b =>
          match parse_radix b r with
          | Some m => num_of_Z m
          | None => S754_nan
          end
      | None => parse_signed l
      end
  | l => parse_signed l
  end.

(** [ToNumber(v)]; an object or array is first converted to its string. *)
Definition to_number (v : jv) : number :=
  match v with
  | JUndef => S754_nan
  | JNull => S754_zero false
  | JBool b => if b then num_of_Z 1 else S754_zero false
  | JNum z => num_of_Z z
  | JStr s => str_to_number s
  | JArr _ | JObj _ => str_to_number (to_js_string v)
  end.

(** [tokenExpiresAt]: [null] or a number. *)
Inductive expiry : Type := ExpNull | ExpNum (x : number).

Definition expiry_truthy (e : expiry) : bool :=
  match e with
  | ExpNum x => num_truthy x
  | ExpNull => false
  end.

(** *** Environment and state *)

(** The process environment and the upstream server.  [upstream n] is the
    answer to the [n]-th request the process sends.  [mock_drugs_file] is
    the content of [data/mock-drugs.json] read by the mock service, [None]
    when it cannot be read or is not JSON. *)
Record env : Type := mkEnv {
  USE_MOCK : bool;
  EMDEX_API_URL : option string;
  EMDEX_EMAIL : option string;
  EMDEX_PASSWORD : option string;
  upstream : nat -> response;
  mock_drugs_file : option jv
}.

(** The module state: [cachedToken], [tokenExpiresAt], the response cache of
    [cache-service.js], the requests sent so far, and [mockData] of
    [mock-emdex-service.js]. *)
Record st : Type := mkSt {
  cachedToken : jv;
  tokenExpiresAt : expiry;
  cache : cstate;
  sent : list request;
  mockData : jv
}.

Inductive result (A : Type) : Type :=
| Ok (a : A)
| Err (e : exn).
Arguments Ok {A} a.
Arguments Err {A} e.

(** An [async] function: state passing with exceptions. *)
Definition M (A : Type) : Type := st -> result A * st.

Definition ret {A} (a : A) : M A := fun s => (Ok a, s).
Definition throw {A} (e : exn) : M A := fun s => (Err e, s).
Definition bind {A B} (m : M A) (k : A -> M B) : M B :=
  fun s => match m s with
           | (Ok a, s') => k a s'
           | (Err e, s') => (Err e, s')
           end.
Definition try_catch {A} (m : M A) (h : exn -> M A) : M A :=
  fun s => match m s with
           | (Ok a, s') => (Ok a, s')
           | (Err e, s') => h e s'
           end.
Definition get_st : M st := fun s => (Ok s, s).
Definition put_st (s : st) : M unit := fun _ => (Ok tt, s).

Notation "x <- m ;; k" := (bind m (fun x => k))
  (at level 61, m at next level, right associativity).
Notation "m ;;; k" := (bind m (fun _ => k)) (at level 61, right associativity).

Definition set_token (t : jv) (e : expiry) : M unit :=
  fun s => (Ok tt, mkSt t e (cache s) (sent s) (mockData s)).

(** [cachedToken = null; tokenExpiresAt = null;] *)
Definition clear_token : M unit := set_token JNull ExpNull.

Definition set_cache (c : cstate) : M unit :=
  fun s => (Ok tt, mkSt (cachedToken s) (tokenExpiresAt s) c (sent s) (mockData s)).

Definition set_mockData (v : jv) : M unit :=
  fun s => (Ok tt, mkSt (cachedToken s) (tokenExpiresAt s) (cache s) (sent s) v).

(** [process.env.X] read as a condition: unset or empty is falsy. *)
Definition env_str (o : option string) : option string :=
  match o with
  | Some v => if String.eqb v "" then None else Some v
  | None => None
  end.

(** [response.ok] *)
Definition ok_status (status : Z) : bool := (200 <=? status)%Z && (status <=? 299)%Z.

Definition is_data_req (r : request) : bool :=
  match r with DataReq _ _ => true | LoginReq _ _ _ => false end.

Definition data_calls (l : list request) : nat := length (filter is_data_req l).
Definition login_calls (l : list request) : nat :=
  length (filter (fun r => negb (is_data_req r)) l).

(** [data.k]: reading a property of [null] or [undefined] throws. *)
Definition read_prop (v : jv) (k : string) : M jv :=
  match v with
  | JNull | JUndef => throw OtherError
  | _ => ret (get_prop v k)
  end.

(** Own enumerable properties copied by the spread [{...v}]. *)
Fixpoint index_props (n : nat) (l : list jv) : list (string * jv) :=
  match l with
  | [] => []
  | x :: l' => (dec_of_N (N.of_nat n), x) :: index_props (S n) l'
  end.

Definition own_props (v : jv) : list (string * jv) :=
  match v with
  | JObj fs => fs
  | JArr l => index_props 0 l
  | JStr s => index_props 0 (map (fun c => JStr (String c EmptyString)) (list_ascii_of_string s))
  | _ => []
  end.

Fixpoint obj_set (fs : list (string * jv)) (k : string) (v : jv) : list (string * jv) :=
  match fs with
  | [] => [(k, v)]
  | (k', v') :: fs' => if String.eqb k' k then (k', v) :: fs' else (k', v') :: obj_set fs' k v
  end.

(** *** The mock service ([mock-emdex-service.js]).  [delay] and the log
    lines have no effect on the result; a template literal that only reads
    properties of an object cannot throw and is left out. *)

Definition upper_char (c : ascii) : ascii :=
  let n := nat_of_ascii c in
  if (97 <=? n)%nat && (n <=? 122)%nat then ascii_of_nat (n - 32) else c.

(** [s.toUpperCase()] *)
Fixpoint toUpperCase (s : string) : string :=
  match s with
  | EmptyString => EmptyString
  | String c s' => String (upper_char c) (toUpperCase s')
  end.

(** [s.replace(/\s+/g, '')]: every white-space character is removed. *)
Fixpoint remove_ws (s : string) : string :=
  match s with
  | EmptyString => EmptyString
  | String c s' => if is_ws c then remove_ws s' else String c (remove_ws s')
  end.

(** [s.includes(sub)] *)
Fixpoint includes (s sub : string) : bool :=
  String.prefix sub s ||
  match s with
  | EmptyString => false
  | String _ s' => includes s' sub
  end.

(** A string method called on [v]: a [TypeError] unless [v] is a string. *)
Definition as_string (v : jv) : M string :=
  match v with
  | JStr s => ret s
  | _ => throw OtherError
  end.

(** An array method called on [v]: a [TypeError] unless [v] is an array. *)
Definition as_array (v : jv) : M (list jv) :=
  match v with
  | JArr l => ret l
  | _ => throw OtherError
  end.

(** [x === s] for a string [s]. *)
Definition is_str (x : jv) (s : string) : bool :=
  match x with
  | JStr t => String.eqb t s
  | _ => false
  end.

(** [l.filter(p)] and [l.find(p)] with a callback that may throw. *)
Fixpoint filterM (p : jv -> M bool) (l : list jv) : M (list jv) :=
  match l with
  | [] => ret []
  | x :: l' => keep <- p x ;; r <- filterM p l' ;; ret (if keep then x :: r else r)
  end.

Fixpoint findM (p : jv -> M bool) (l : list jv) : M jv :=
  match l with
  | [] => ret JUndef
  | x :: l' => found <- p x ;; if found then ret x else findM p l'
  end.

(** [v.k.toLowerCase()] *)
Definition lower_field (v : jv) (k : string) : M string :=
  x <- read_prop v k ;; s <- as_string x ;; ret (toLowerCase s).

(** [data.k], used as an array. *)
Definition array_field (v : jv) (k : string) : M (list jv) :=
  x <- read_prop v k ;; as_array x.

(** [!q || q.trim() === ''] is false: [Some q]. *)
Definition nonblank (q : jv) : M (option string) :=
  if negb (truthy q) then ret None else
  s <- as_string q ;; ret (if String.eqb (trim s) "" then None else Some s).

Definition mock_empty : jv := JObj [("brands", JArr []); ("generics", JArr [])].

Section Service.
Variable E : env.

(** [loadMockData()]: the parsed file is kept in [mockData] before the log
    line reads [mockData.brands.length] and [mockData.generics.length]; when
    that throws, the [catch] answers with no drugs. *)
Definition loadMockData : M jv :=
  s <- get_st ;;
  if truthy (mockData s) then ret (mockData s) else
  match mock_drugs_file E with
  | None => ret mock_empty
  | Some v =>
      set_mockData v ;;;
      try_catch
        (br <- read_prop v "brands" ;; read_prop br "length" ;;;
         gn <- read_prop v "generics" ;; read_prop gn "length" ;;;
         ret v)
        (fun _ => ret mock_empty)
  end.

(** [mockLogin()]; [now] is the [Date.now()] it reads. *)
Definition mockLogin (now : Z) : M jv :=
  ret (JObj [("success", JBool true);
             ("token", JStr ("mock_token_" ++ dec_of_Z now));
             ("expires_in", JNum 86400)]).

Definition search_answer (results : list jv) : jv :=
  JObj [("success", JBool true); ("data", JArr results);
        ("total", JNum (Z.of_nat (length results)))].

(** [mockBrandSearch(query)] *)
Definition mockBrandSearch (query : jv) : M jv :=
  data <- loadMockData ;;
  q <- nonblank query ;;
  match q with
  | None => ret (search_answer [])
  | Some qs =>
      let queryLower := trim (toLowerCase qs) in
      brands <- array_field data "brands" ;;
      results <- filterM (fun brand =>
                   a <- lower_field brand "brand_name" ;;
                   g <- lower_field brand "generic_name" ;;
                   n <- lower_field brand "nafdac_number" ;;
                   c <- lower_field brand "category" ;;
                   m <- lower_field brand "manufacturer" ;;
                   ret (includes a queryLower || includes g queryLower || includes n queryLower ||
                        includes c queryLower || includes m queryLower)) brands ;;
      ret (search_answer results)
  end.

(** [mockGenericSearch(query)] *)
Definition mockGenericSearch (query : jv) : M jv :=
  data <- loadMockData ;;
  q <- nonblank query ;;
  match q with
  | None => ret (search_answer [])
  | Some qs =>
      let queryLower := trim (toLowerCase qs) in
      generics <- array_field data "generics" ;;
      results <- filterM (fun generic =>
                   g <- lower_field generic "generic_name" ;;
                   c <- lower_field generic "category" ;;
                   t <- lower_field generic "therapeutic_class" ;;
                   ret (includes g queryLower || includes c queryLower || includes t queryLower))
                   generics ;;
      ret (search_answer results)
  end.

(** [l.find(x => x.id === String(id))] *)
Definition find_by_id (l : list jv) (id : jv) : M jv :=
  findM (fun x => i <- read_prop x "id" ;; ret (is_str i (to_js_string id))) l.

(** The brands whose [generic_name] equals the generic's, case-insensitively. *)
Definition related_brands (brands : list jv) (generic : jv) : M (list jv) :=
  filterM (fun b => x <- lower_field b "generic_name" ;; y <- lower_field generic "generic_name" ;;
                    ret (String.eqb x y)) brands.

(** [mockBrandDetails(brandId)] *)
Definition mockBrandDetails (brandId : jv) : M jv :=
  data <- loadMockData ;;
  brands <- array_field data "brands" ;;
  brand <- find_by_id brands brandId ;;
  if negb (truthy brand) then ret (JObj [("success", JBool false); ("error", JStr "Brand not found")])
  else ret (JObj [("success", JBool true); ("data", brand)]).

(** [mockGenericDetails(genericId)] *)
Definition mockGenericDetails (genericId : jv) : M jv :=
  data <- loadMockData ;;
  generics <- array_field data "generics" ;;
  generic <- find_by_id generics genericId ;;
  if negb (truthy generic) then ret (JObj [("success", JBool false); ("error", JStr "Generic not found")])
  else
    brands <- array_field data "brands" ;;
    related <- related_brands brands generic ;;
    ret (JObj [("success", JBool true);
               ("data", JObj (obj_set (own_props generic) "brands" (JArr related)))]).

(** [mockVerifyNafdac(nafdacNumber)] *)
Definition mockVerifyNafdac (nafdacNumber : jv) : M jv :=
  data <- loadMockData ;;
  q <- nonblank nafdacNumber ;;
  match q with
  | None => ret (JObj [("success", JBool false); ("verified", JBool false);
                       ("error", JStr "NAFDAC number is required")])
  | Some ns =>
      let normalizedNafdac := remove_ws (toUpperCase ns) in
      brands <- array_field data "brands" ;;
      brand <- findM (fun b => x <- read_prop b "nafdac_number" ;; t <- as_string x ;;
                               ret (String.eqb (remove_ws (toUpperCase t)) normalizedNafdac)) brands ;;
      if truthy brand
      then ret (JObj [("success", JBool true); ("verified", JBool true); ("data", brand)])
      else ret (JObj [("success", JBool true); ("verified", JBool false); ("data", JNull)])
  end.

(** [mockBrandsForGeneric(genericId)] *)
Definition mockBrandsForGeneric (genericId : jv) : M jv :=
  data <- loadMockData ;;
  generics <- array_field data "generics" ;;
  generic <- find_by_id generics genericId ;;
  if negb (truthy generic) then ret (JObj [("success", JBool false); ("error", JStr "Generic not found")])
  else
    brands <- array_field data "brands" ;;
    related <- related_brands brands generic ;;
    ret (search_answer related).

(** [mockEmdexRequest(endpoint, body)] *)
Definition mockEmdexRequest (endpoint : string) (body : list (string * jv)) (now : Z) : M jv :=
  if String.eqb endpoint "/api/v1/login" then mockLogin now
  else if String.eqb endpoint "/api/v1/brands/search" then mockBrandSearch (prop_lookup body "query")
  else if String.eqb endpoint "/api/v1/brands/details" then mockBrandDetails (prop_lookup body "brand_id")
  else if String.eqb endpoint "/api/v1/generic/search" then mockGenericSearch (prop_lookup body "query")
  else if String.eqb endpoint "/api/v1/generic/details" then mockGenericDetails (prop_lookup body "generic_id")
  else if String.eqb endpoint "/api/v1/generic/brands" then mockBrandsForGeneric (prop_lookup body "generic_id")
  else if String.eqb endpoint "/api/v1/verify" then mockVerifyNafdac (prop_lookup body "nafdac_number")
  else ret (JObj [("success", JBool false); ("error", JStr ("Unknown endpoint: " ++ endpoint))]).

(** *** The real service *)

(** [await fetch(...)]: the request is sent; a transport failure rejects. *)
Definition fetch (rq : request) : M (Z * resp_body) :=
  fun s =>
    let s' := mkSt (cachedToken s) (tokenExpiresAt s) (cache s) (sent s ++ [rq]) (mockData s) in
    match upstream E (length (sent s)) with
    | NetFail => (Err OtherError, s')
    | Resp status body => (Ok (status, body), s')
    end.

(** [await response.text()]; the text itself only goes into the error
    message. *)
Definition text (body : resp_body) : M unit :=
  match body with
  | BodyCut => throw OtherError
  | _ => ret tt
  end.

(** [await response.json()] *)
Definition json (body : resp_body) : M jv :=
  match body with
  | BodyJson v => ret v
  | _ => throw OtherError
  end.

(** [cachedToken && tokenExpiresAt && (tokenExpiresAt - 60000) > now] *)
Definition token_fresh (s : st) (now : Z) : bool :=
  truthy (cachedToken s) &&
  match tokenExpiresAt s with
  | ExpNull => false
  | ExpNum x => num_truthy x && num_lt (num_of_Z now) (num_sub x (num_of_Z 60000))
  end.

(** [tokenExpiresAt = now + (expiresIn * 1000)] *)
Definition expiry_of (now : Z) (expiresIn : jv) : expiry :=
  ExpNum (num_add (num_of_Z now) (num_mul (to_number expiresIn) (num_of_Z 1000))).

(** The [try] block of [getToken]. *)
Definition login (apiUrl email password : string) (now : Z) : M jv :=
  r <- fetch (LoginReq (apiUrl ++ "/api/v1/login") email password) ;;
  let '(status, body) := r in
  if negb (ok_status status) then (text body ;;; throw (EmdexError AUTH_FAILED)) else
  data <- json body ;;
  t1 <- read_prop data "token" ;;
  token <- (if truthy t1 then ret t1 else read_prop data "access_token") ;;
  if negb (truthy token) then throw (EmdexError AUTH_FAILED) else
  e1 <- read_prop data "expires_in" ;;
  e2 <- (if truthy e1 then ret e1 else read_prop data "expiresIn") ;;
  let expiresIn := js_or e2 (JNum 3600) in
  set_token token (expiry_of now expiresIn) ;;;
  ret token.

(** [getToken()]; [now] is the [Date.now()] read on entry. *)
Definition getToken (now : Z) : M jv :=
  s <- get_st ;;
  if token_fresh s now then ret (cachedToken s) else
  match env_str (EMDEX_API_URL E), env_str (EMDEX_EMAIL E), env_str (EMDEX_PASSWORD E) with
  | Some apiUrl, Some email, Some password =>
      try_catch (login apiUrl email password now)
        (fun err => clear_token ;;;
                    match err with
                    | EmdexError c => throw (EmdexError c)
                    | OtherError => throw (EmdexError NETWORK_ERROR)
                    end)
  | _, _, _ => throw (EmdexError AUTH_FAILED)
  end.

(** One execution of the body of [emdexRequest(endpoint, body, isRetry)];
    [now] is the clock reading of the call ([Date.now()] in [getToken], or
    in [mockLogin]).  In mock mode the mock's promise is returned as it is,
    outside the [try].  The [try] block yields [inl tt] where it executes
    [return emdexRequest(endpoint, body, true)]: that call runs after the
    [try] has been left (the returned promise is not awaited inside it), as
    [again]. *)
Definition emdexAttempt (endpoint : string) (body : list (string * jv))
  (isRetry : bool) (now : Z) (again : M jv) : M jv :=
  if USE_MOCK E then mockEmdexRequest endpoint body now else
  match env_str (EMDEX_API_URL E) with
  | None => throw (EmdexError REQUEST_FAILED)
  | Some apiUrl =>
      r <- try_catch
             (token <- getToken now ;;
              resp <- fetch (DataReq (apiUrl ++ endpoint) token) ;;
              let '(status, rbody) := resp in
              if (status =? 401)%Z && negb isRetry then
                clear_token ;;; ret (inl tt)
              else if negb (ok_status status) then
                (text rbody ;;; throw (EmdexError REQUEST_FAILED))
              else (data <- json rbody ;; ret (inr data)))
             (fun err => match err with
                         | EmdexError c => throw (EmdexError c)
                         | OtherError => throw (EmdexError NETWORK_ERROR)
                         end) ;;
      match r with
      | inl _ => again
      | inr data => ret data
      end
  end.

(** [emdexRequest(endpoint, body, isRetry)].  The recursive call always has
    [isRetry = true], and an attempt with [isRetry = true] never runs its
    [again] (lemma [emdexAttempt_retry_final]); the innermost continuation is
    therefore never reached. *)
Definition emdexRequest (endpoint : string) (body : list (string * jv))
  (isRetry : bool) (now : Z) : M jv :=
  emdexAttempt endpoint body isRetry now
    (emdexAttempt endpoint body true now (throw (EmdexError REQUEST_FAILED))).

(** [endpoint.replace(/\//g, '_')] *)
Definition replace_slashes (s : string) : string :=
  string_of_list_ascii
    (map (fun c => if Ascii.eqb c "/"%char then "_"%char else c) (list_ascii_of_string s)).

Definition cacheKeyOf (endpoint : string) (body : list (string * jv)) : string :=
  generateKey ("emdex" ++ replace_slashes endpoint) body.

(** [{ ...v, _cache: meta }] *)
Definition annotate (v : jv) (meta : jv) : jv := JObj (obj_set (own_props v) "_cache" meta).

Definition cache_meta (hit : bool) (key : string) (ttl : Z) : jv :=
  JObj [("hit", JBool hit); ("key", JStr key); ("ttl", JNum ttl)].

(** [cachedEmdexRequest(endpoint, body, ttlSeconds)]; one clock value [now]
    serves the cache lookup, the token check (or the mock's login) and the
    cache write. *)
Definition cachedEmdexRequest (endpoint : string) (body : list (string * jv))
  (ttlSeconds : Z) (now : Z) : M jv :=
  let cacheKey := cacheKeyOf endpoint body in
  s <- get_st ;;
  let '(cachedData, c1) := CacheService.get (cache s) cacheKey now in
  set_cache c1 ;;;
  if truthy cachedData then
    ret (annotate cachedData (cache_meta true cacheKey (fst (getTTL c1 cacheKey now))))
  else
    result <- emdexRequest endpoint body false now ;;
    (if truthy result && negb (truthy (get_prop result "error")) then
       s2 <- get_st ;; set_cache (CacheService.set (cache s2) cacheKey result ttlSeconds now)
     else ret tt) ;;;
    ret (annotate result (cache_meta false cacheKey ttlSeconds)).

End Service.

(** [clearTokenCache()] *)
Definition clearTokenCache : M unit := clear_token.

(** [clearResponseCache()]: [cache.clear()] *)
Definition clearResponseCache : M unit :=
  s <- get_st ;; set_cache (clear (cache s)).

End Emdex.

(** ** Concrete environments *)

Module Scenarios.
Import CacheService Emdex.
Local Open Scope string_scope.

Definition login_ok_body : jv := JObj [("token", JStr "t1"); ("expires_in", JNum 3600)].

Definition mk_env (up : nat -> response) : env :=
  mkEnv false (Some "https://x") (Some "a") (Some "b") up None.

(** Login, a data call answered 401, a second login, a second 401. *)
Definition up_double401 (n : nat) : response :=
  match n with
  | 0%nat => Resp 200 (BodyJson login_ok_body)
  | 1%nat => Resp 401 BodyText
  | 2%nat => Resp 200 (BodyJson (JObj [("access_token", JStr "t2")]))
  | 3%nat => Resp 401 BodyText
  | _ => NetFail
  end.

(** As [up_double401], but the body of the second 401 cannot be read. *)
Definition up_401_cut (n : nat) : response :=
  match n with
  | 3%nat => Resp 401 BodyCut
  | _ => up_double401 n
  end.

(** A login answer whose [expires_in] is [0]. *)
Definition up_zero_expiry (n : nat) : response :=
  match n with
  | 0%nat => Resp 200 (BodyJson (JObj [("token", JStr "t"); ("expires_in", JNum 0)]))
  | _ => NetFail
  end.

(** A rejected login. *)
Definition up_reject (_ : nat) : response := Resp 401 (BodyJson (JObj [("message", JStr "bad")])).

(** A rejected login whose body cannot be read. *)
Definition up_reject_cut (_ : nat) : response := Resp 401 BodyCut.

(** A data answer carrying [error: false]. *)
Definition error_payload : jv := JObj [("error", JBool false); ("data", JArr [])].

Definition up_error_field (n : nat) : response :=
  match n with
  | 0%nat => Resp 200 (BodyJson login_ok_body)
  | 1%nat => Resp 200 (BodyJson error_payload)
  | _ => NetFail
  end.

Definition E_double401 : env := mk_env up_double401.
Definition E_401_cut : env := mk_env up_401_cut.
Definition E_zero_expiry : env := mk_env up_zero_expiry.
Definition E_reject : env := mk_env up_reject.
Definition E_reject_cut : env := mk_env up_reject_cut.
Definition E_error_field : env := mk_env up_error_field.

(** [EMDEX_EMAIL] unset. *)
Definition E_nocreds : env :=
  mkEnv false (Some "https://x") None (Some "b") (fun _ => NetFail) None.

Definition s_empty : st := mkSt JNull ExpNull init [] JNull.

(** A token whose expiry has passed. *)
Definition s_stale : st := mkSt (JStr "t0") (ExpNum (num_of_Z 1000)) init [] JNull.

(** A search answered with one brand. *)
Definition search_brand : jv :=
  JObj [("id", JNum 7); ("brand_name", JStr "Panadol"); ("nafdac_number", JStr "A4-0001")].

Definition search_payload : jv := JObj [("data", JArr [search_brand])].

(** A generic search answered with two generics, the first registered
    under the brand's NAFDAC number. *)
Definition generic_para : jv :=
  JObj [("id", JNum 3); ("generic_name", JStr "Paracetamol"); ("nafdac_number", JStr "A4-0001")].

Definition generic_ibu : jv :=
  JObj [("id", JNum 4); ("generic_name", JStr "Ibuprofen"); ("nafdac_number", JStr "B2-0002")].

Definition generic_payload : jv := JObj [("data", JArr [generic_para; generic_ibu])].

Definition up_search_ok (n : nat) : response :=
  match n with
  | 0%nat => Resp 200 (BodyJson login_ok_body)
  | 1%nat => Resp 200 (BodyJson search_payload)
  | _ => NetFail
  end.

Definition E_search_ok : env := mk_env up_search_ok.

Definition search_ep : string := "/api/v1/brands/search".
Definition search_body : list (string * jv) := [("query", JStr "panadol")].

(** A mock brand, and the mock mode with a data file holding it. *)
Definition mock_brand : jv :=
  JObj [("id", JStr "1"); ("brand_name", JStr "Panadol"); ("generic_name", JStr "Paracetamol");
        ("nafdac_number", JStr "A4-0001"); ("category", JStr "Analgesic");
        ("manufacturer", JStr "GSK")].

Definition E_mock : env :=
  mkEnv true None None None (fun _ => NetFail)
    (Some (JObj [("brands", JArr [mock_brand]); ("generics", JArr [])])).


End Scenarios.

(** ** The drug transformer ([drug-transformer.js]) *)

Module Transformer.
Local Open Scope string_scope.

(** [x === null] *)
Definition is_null (v : jv) : bool := match v with JNull => true | _ => false end.

(** [x === null || x === undefined] *)
Definition nullish (v : jv) : bool := match v with JNull | JUndef => true | _ => false end.

(** [transformEmdexBrand(emdexData)].  [generateTempId()] draws a random
    string; it is the argument [tempId]. *)
Definition transformEmdexBrand (tempId : string) (emdexData : jv) : jv :=
  if negb (truthy emdexData) then JNull else
  let p := get_prop emdexData in
  JObj [("id", JStr ("emdex_brand_" ++
                     to_js_string (js_or (js_or (p "id") (p "brand_id")) (JStr tempId))));
        ("type", JStr "brand");
        ("brand_name", js_or (js_or (js_or (p "brand_name") (p "name")) (p "brandName")) JNull);
        ("generic_name",
          js_or (js_or (js_or (p "generic_name") (p "genericName")) (p "active_ingredient")) JNull);
        ("manufacturer", js_or (js_or (js_or (p "manufacturer") (p "company")) (p "mfr")) JNull);
        ("strength", js_or (js_or (p "strength") (p "dosage")) JNull);
        ("dosage_form", js_or (js_or (js_or (p "dosage_form") (p "form")) (p "dosageForm")) JNull);
        ("nafdac_number",
          js_or (js_or (js_or (p "nafdac_number") (p "nafdac_no")) (p "registration_number")) JNull);
        ("pack_size", js_or (js_or (p "pack_size") (p "packSize")) JNull);
        ("category", js_or (js_or (p "category") (p "therapeutic_class")) JNull);
        ("description", js_or (js_or (p "description") (p "indication")) JNull);
        ("price", js_or (js_or (p "price") (p "retail_price")) JNull);
        ("is_verified", JBool true);
        ("source", JStr "emdex");
        ("raw_data", emdexData)].

(** [transformEmdexGeneric(emdexData)] *)
Definition transformEmdexGeneric (tempId : string) (emdexData : jv) : jv :=
  if negb (truthy emdexData) then JNull else
  let p := get_prop emdexData in
  JObj [("id", JStr ("emdex_generic_" ++
                     to_js_string (js_or (js_or (p "id") (p "generic_id")) (JStr tempId))));
        ("type", JStr "generic");
        ("brand_name", JNull);
        ("generic_name", js_or (js_or (js_or (p "generic_name") (p "name")) (p "genericName")) JNull);
        ("manufacturer", js_or (js_or (p "manufacturer") (p "company")) JNull);
        ("strength", js_or (js_or (p "strength") (p "dosage")) JNull);
        ("dosage_form", js_or (js_or (js_or (p "dosage_form") (p "form")) (p "dosageForm")) JNull);
        ("nafdac_number", js_or (js_or (p "nafdac_number") (p "nafdac_no")) JNull);
        ("pack_size", js_or (js_or (p "pack_size") (p "packSize")) JNull);
        ("category", js_or (js_or (p "category") (p "therapeutic_class")) JNull);
        ("description", js_or (js_or (p "description") (p "indication")) JNull);
        ("price", js_or (js_or (p "price") (p "retail_price")) JNull);
        ("is_verified", JBool true);
        ("source", JStr "emdex");
        ("raw_data", emdexData)].

(** [arr.map(f)] where the [i]-th call of [f] draws [tempIds i]. *)
Fixpoint map_idx (f : string -> jv -> jv) (tempIds : nat -> string) (i : nat) (l : list jv)
  : list jv :=
  match l with
  | [] => []
  | x :: l' => f (tempIds i) x :: map_idx f tempIds (S i) l'
  end.

(** The unwrapping at the head of [transformBrandResults] and
    [transformGenericResults]: [None] is the early [return []]. *)
Definition unwrap_results (third : string) (v : jv) : option jv :=
  match v with
  | JArr _ => Some v
  | _ =>
      if truthy v && truthy (get_prop v "data") then Some (get_prop v "data")
      else if truthy v && truthy (get_prop v "results") then Some (get_prop v "results")
      else if truthy v && truthy (get_prop v third) then Some (get_prop v third)
      else None
  end.

(** [emdexResults.map(f).filter(drug => drug !== null)]; a value that is not
    an array has no [map] method, and the call throws a [TypeError]
    ([None]). *)
Definition map_filter (f : string -> jv -> jv) (tempIds : nat -> string) (v : jv)
  : option (list jv) :=
  match v with
  | JArr l => Some (filter (fun d => negb (is_null d)) (map_idx f tempIds 0 l))
  | _ => None
  end.

(** [transformBrandResults(emdexResults)]; [None] is a thrown [TypeError]. *)
Definition transformBrandResults (tempIds : nat -> string) (emdexResults : jv)
  : option (list jv) :=
  match unwrap_results "brands" emdexResults with
  | None => Some []
  | Some arr => map_filter transformEmdexBrand tempIds arr
  end.

(** [transformGenericResults(emdexResults)] *)
Definition transformGenericResults (tempIds : nat -> string) (emdexResults : jv)
  : option (list jv) :=
  match unwrap_results "generics" emdexResults with
  | None => Some []
  | Some arr => map_filter transformEmdexGeneric tempIds arr
  end.

(** [SameValueZero], as used by [Set.prototype.has].  Values of the model
    carry no object identity: the arrays and objects met here are distinct
    results of [JSON.parse], so two of them are never the same value. *)
Definition same_value_zero (a b : jv) : bool :=
  match a, b with
  | JUndef, JUndef | JNull, JNull => true
  | JBool x, JBool y => Bool.eqb x y
  | JNum x, JNum y => Z.eqb x y
  | JStr x, JStr y => String.eqb x y
  | _, _ => false
  end.

(** [drug.nafdac_number || drug.id] *)
Definition dedup_key (drug : jv) : jv :=
  js_or (get_prop drug "nafdac_number") (get_prop drug "id").

(** The [filter] of [removeDuplicates] with the set [seen]; reading a
    property of [null] or [undefined] throws ([None]). *)
Fixpoint dedup (seen : list jv) (drugs : list jv) : option (list jv) :=
  match drugs with
  | [] => Some []
  | drug :: rest =>
      if nullish drug then None else
      let key := dedup_key drug in
      if existsb (same_value_zero key) seen then dedup seen rest
      else option_map (cons drug) (dedup (key :: seen) rest)
  end.

(** [removeDuplicates(drugs)] *)
Definition removeDuplicates (drugs : list jv) : option (list jv) := dedup [] drugs.

(** [x] is [l] with some elements left out, the others in their order. *)
Inductive subseq {A : Type} : list A -> list A -> Prop :=
| subseq_nil : subseq [] []
| subseq_keep x l l' : subseq l l' -> subseq (x :: l) (x :: l')
| subseq_drop x l l' : subseq l l' -> subseq l (x :: l').

(** Values [Set] compares by content: everything but arrays and objects. *)
Definition is_prim (v : jv) : bool := match v with JArr _ | JObj _ => false | _ => true end.

(** [s.replace(pattern, '')] with a string pattern: the first occurrence is
    removed. *)
Definition replace_first (pattern s : string) : string :=
  match String.index 0 pattern s with
  | Some n => substring 0 n s ++ substring (n + String.length pattern) (String.length s) s
  | None => s
  end.

(** [parseAppDrugId(appId)]: [Some (type, emdexId)], or [None] for [null]. *)
Definition parseAppDrugId (appId : jv) : option (string * string) :=
  match appId with
  | JStr s =>
      if negb (truthy appId) then None
      else if String.prefix "emdex_brand_" s then Some ("brand", replace_first "emdex_brand_" s)
      else if String.prefix "emdex_generic_" s then Some ("generic", replace_first "emdex_generic_" s)
      else None
  | _ => None
  end.

(** The separators of [/[,;\n]+/]. *)
Definition is_sep (c : ascii) : bool :=
  Ascii.eqb c ","%char || Ascii.eqb c ";"%char || Ascii.eqb c (ascii_of_nat 10).

(** [value.split(/[,;\n]+/)]: a run of separators is one match; [cur] is the
    piece being read, [in_sep] whether the last character read was a
    separator. *)
Fixpoint split_sep (l : list ascii) (cur : list ascii) (in_sep : bool) : list (list ascii) :=
  match l with
  | [] => [cur]
  | c :: l' =>
      if is_sep c then (if in_sep then split_sep l' cur true else cur :: split_sep l' [] true)
      else split_sep l' (cur ++ [c]) false
  end.

(** [parseToArray(value)] *)
Definition parseToArray (value : jv) : list jv :=
  if negb (truthy value) then [] else
  match value with
  | JArr l => l
  | JStr s =>
      map JStr
        (filter (fun item => (0 <? String.length item)%nat)
           (map (fun piece => trim (string_of_list_ascii piece))
              (split_sep (list_ascii_of_string s) [] false)))
  | _ => []
  end.

End Transformer.

(** ** Definitions used by the further properties *)

Module ExtraDefs.
Import Transformer.
Local Open Scope string_scope.

(** A piece of text without the separators of [parseToArray]. *)
Definition nosep (l : list ascii) : Prop := Forall (fun c => is_sep c = false) l.

(** A parameter value as [generateKey] normalises it: a string lowercased and
    trimmed. *)
Definition norm_value (v : jv) : jv :=
  match v with
  | JStr s => JStr (trim (toLowerCase s))
  | _ => v
  end.

End ExtraDefs.

(** ** Properties of the cache *)

Module CacheFacts.
Import CacheService.

Definition keys (m : list (string * item)) : list string := map fst m.

Definition not_victim (ks : list string) (p : string * item) : bool :=
  negb (existsb (String.eqb (fst p)) ks).

Definition older (x y : string * item) : Prop := createdAt (snd x) <= createdAt (snd y).

(** The invariant of every reachable state: the [Map] has each key once and
    at most [MAX_CACHE_SIZE] entries. *)
Definition Inv (c : cstate) : Prop :=
  NoDup (keys (store c)) /\ size c <= MAX_CACHE_SIZE.

Lemma existsb_eqb_In (a : string) (l : list string) :
  existsb (String.eqb a) l = true <-> In a l.
Proof.
  rewrite existsb_exists. split.
  - intros [x [Hx HE]]. apply String.eqb_eq in HE. subst. exact Hx.
  - intros H. exists a. split; [exact H | apply String.eqb_refl].
Qed.

Lemma filter_all_true {A} (f : A -> bool) (l : list A) :
  (forall x, In x l -> f x = true) -> filter f l = l.
Proof.
  induction l as [|x l IH]; simpl; intros H; [reflexivity|].
  rewrite (H x (or_introl eq_refl)). f_equal. apply IH. intros y Hy. apply H. now right.
Qed.

Lemma filter_all_false {A} (f : A -> bool) (l : list A) :
  (forall x, In x l -> f x = false) -> filter f l = [].
Proof.
  induction l as [|x l IH]; simpl; intros H; [reflexivity|].
  rewrite (H x (or_introl eq_refl)). apply IH. intros y Hy. apply H. now right.
Qed.

Lemma filter_filter_and {A} (f g : A -> bool) (l : list A) :
  filter f (filter g l) = filter (fun x => g x && f x) l.
Proof.
  induction l as [|x l IH]; simpl; [reflexivity|].
  destruct (g x); simpl; [destruct (f x)|]; rewrite ?IH; reflexivity.
Qed.

Lemma Permutation_filter_compat {A} (f : A -> bool) (l l' : list A) :
  Permutation l l' -> Permutation (filter f l) (filter f l').
Proof.
  induction 1; simpl.
  - constructor.
  - destruct (f x); [constructor|]; assumption.
  - destruct (f x), (f y); try constructor; reflexivity.
  - eapply perm_trans; eassumption.
Qed.

Lemma NoDup_app_not_in {A} (l1 l2 : list A) (a : A) :
  NoDup (l1 ++ l2) -> In a l2 -> ~ In a l1.
Proof.
  induction l1 as [|b l1 IH]; simpl; intros Hnd Ha; [tauto|].
  inversion Hnd as [|? ? Hb Hnd']; subst.
  intros [Heq | Hin].
  - subst. apply Hb. apply in_or_app. now right.
  - exact (IH Hnd' Ha Hin).
Qed.

Lemma keys_filter_NoDup (f : string * item -> bool) (m : list (string * item)) :
  NoDup (keys m) -> NoDup (keys (filter f m)).
Proof.
  induction m as [|[k it] m IH]; simpl; intros Hnd; [constructor|].
  inversion Hnd as [|? ? Hk Hnd']; subst.
  destruct (f (k, it)); simpl; [constructor|]; auto.
  intros Hin. apply Hk. unfold keys in Hin. rewrite in_map_iff in Hin.
  destruct Hin as [[k' it'] [Hk' Hin]]. simpl in Hk'. subst k'.
  apply filter_In in Hin. apply in_map_iff. exists (k, it'). split; [reflexivity | tauto].
Qed.

(** [cache.delete] on a map with distinct keys removes exactly the entries of
    that key. *)
Lemma map_delete_filter (m : list (string * item)) (k : string) :
  NoDup (keys m) ->
  snd (map_delete m k) = filter (fun p => negb (String.eqb (fst p) k)) m.
Proof.
  induction m as [|[k' it] m IH]; simpl; intros Hnd; [reflexivity|].
  inversion Hnd as [|? ? Hk' Hnd']; subst.
  destruct (String.eqb_spec k' k) as [->|Hne]; simpl.
  - symmetry. apply filter_all_true. intros [k2 it2] Hin. simpl.
    destruct (String.eqb_spec k2 k) as [->|]; [|reflexivity].
    exfalso. apply Hk'. apply in_map_iff. exists (k, it2). auto.
  - destruct (map_delete m k) as [b r] eqn:E. simpl in *.
    f_equal. apply IH. exact Hnd'.
Qed.

Lemma map_delete_length (m : list (string * item)) (k : string) :
  (length (snd (map_delete m k)) <= length m)%nat.
Proof.
  induction m as [|[k' it] m IH]; simpl; [lia|].
  destruct (String.eqb k' k); simpl; [lia|].
  destruct (map_delete m k) as [b r]. simpl in *. lia.
Qed.

Lemma map_delete_NoDup (m : list (string * item)) (k : string) :
  NoDup (keys m) -> NoDup (keys (snd (map_delete m k))).
Proof.
  intros Hnd. rewrite map_delete_filter by exact Hnd. apply keys_filter_NoDup, Hnd.
Qed.

Lemma map_set_keys (m : list (string * item)) (k x : string) (v : item) :
  In x (keys (map_set m k v)) -> x = k \/ In x (keys m).
Proof.
  unfold keys.
  induction m as [|[k' it] m IH]; simpl; [intros [H|[]]; left; congruence|].
  destruct (String.eqb_spec k' k) as [->|]; simpl; [tauto|].
  intros [H|H]; [tauto|]. destruct (IH H); tauto.
Qed.

Lemma map_set_NoDup (m : list (string * item)) (k : string) (v : item) :
  NoDup (keys m) -> NoDup (keys (map_set m k v)).
Proof.
  unfold keys.
  induction m as [|[k' it] m IH]; simpl; intros Hnd.
  - constructor; [simpl; tauto | constructor].
  - inversion Hnd as [|? ? Hk' Hnd']; subst.
    destruct (String.eqb_spec k' k) as [->|Hne]; simpl; constructor; auto.
    intros Hin. destruct (map_set_keys m k k' v Hin) as [E|E]; [congruence | tauto].
Qed.

Lemma map_set_length (m : list (string * item)) (k : string) (v : item) :
  (length (map_set m k v) <= S (length m))%nat.
Proof.
  induction m as [|[k' it] m IH]; simpl; [lia|].
  destruct (String.eqb k' k); simpl; lia.
Qed.

(** *** The stable sort by creation time *)

Lemma insert_by_created_perm (e : string * item) (l : list (string * item)) :
  Permutation (insert_by_created e l) (e :: l).
Proof.
  induction l as [|x l IH]; simpl; [reflexivity|].
  destruct (createdAt (snd e) <=? createdAt (snd x)); [reflexivity|].
  eapply perm_trans; [apply perm_skip, IH | apply perm_swap].
Qed.

Lemma sort_by_created_perm (l : list (string * item)) :
  Permutation (sort_by_created l) l.
Proof.
  induction l as [|x l IH]; simpl; [reflexivity|].
  eapply perm_trans; [apply insert_by_created_perm | apply perm_skip, IH].
Qed.

Lemma HdRel_insert_by_created (y e : string * item) (l : list (string * item)) :
  older y e -> HdRel older y l -> HdRel older y (insert_by_created e l).
Proof.
  intros Hye Hl. destruct l as [|x l]; simpl.
  - constructor. exact Hye.
  - destruct (createdAt (snd e) <=? createdAt (snd x)); constructor; [exact Hye|].
    inversion Hl; assumption.
Qed.

Lemma insert_by_created_sorted (e : string * item) (l : list (string * item)) :
  Sorted older l -> Sorted older (insert_by_created e l).
Proof.
  induction l as [|x l IH]; simpl; intros Hs.
  - repeat constructor.
  - destruct (Z.leb_spec (createdAt (snd e)) (createdAt (snd x))) as [Hle|Hgt].
    + constructor; [exact Hs | constructor; exact Hle].
    + inversion Hs as [|? ? Hs' Hhd]; subst.
      constructor; [apply IH, Hs'|].
      apply HdRel_insert_by_created; [unfold older; lia | exact Hhd].
Qed.

Lemma sort_by_created_sorted (l : list (string * item)) :
  Sorted older (sort_by_created l).
Proof.
  induction l as [|x l IH]; simpl; [constructor|].
  apply insert_by_created_sorted, IH.
Qed.

Lemma older_trans : Relations_1.Transitive older.
Proof. intros x y z; unfold older; lia. Qed.

Lemma StronglySorted_app_rel {A} (R : A -> A -> Prop) (l1 l2 : list A) (x y : A) :
  StronglySorted R (l1 ++ l2) -> In x l1 -> In y l2 -> R x y.
Proof.
  induction l1 as [|a l1 IH]; simpl; intros Hs Hx Hy; [contradiction|].
  inversion Hs as [|? ? Hs' Hall]; subst.
  destruct Hx as [->|Hx].
  - rewrite Forall_forall in Hall. apply Hall, in_or_app. now right.
  - exact (IH Hs' Hx Hy).
Qed.

(** *** Eviction *)

Lemma evict_loop_spec (vs : list (string * item)) (c : cstate) :
  NoDup (keys (store c)) ->
  store (evict_loop vs c) = filter (not_victim (keys vs)) (store c) /\
  evictions (stats (evict_loop vs c)) = evictions (stats c) + Z.of_nat (length vs) /\
  hits (stats (evict_loop vs c)) = hits (stats c) /\
  misses (stats (evict_loop vs c)) = misses (stats c) /\
  sets (stats (evict_loop vs c)) = sets (stats c).
Proof.
  revert c. induction vs as [|[k it] vs IH]; intros c Hnd; simpl.
  - repeat split; try lia.
    symmetry. apply filter_all_true. reflexivity.
  - destruct (IH (mkC (snd (map_delete (store c) k)) (incr_evictions (stats c))))
      as (Hst & Hev & Hh & Hm & Hs).
    { apply map_delete_NoDup, Hnd. }
    rewrite Hst, Hev, Hh, Hm, Hs. simpl. repeat split; try lia.
    rewrite map_delete_filter by exact Hnd. rewrite filter_filter_and.
    apply filter_ext. intros [k2 it2]. unfold not_victim. simpl.
    destruct (String.eqb k2 k); reflexivity.
Qed.

Lemma evictOldest_spec (c : cstate) :
  NoDup (keys (store c)) ->
  let sorted := sort_by_created (store c) in
  let taken := firstn itemsToRemove sorted in
  let rest := skipn itemsToRemove sorted in
  store (evictOldest c) = filter (not_victim (keys taken)) (store c) /\
  Permutation (store (evictOldest c)) rest /\
  evictions (stats (evictOldest c)) = evictions (stats c) + Z.of_nat (length taken) /\
  (forall e f, In e (store c) -> ~ In e (store (evictOldest c)) ->
               In f (store (evictOldest c)) -> older e f).
Proof.
  intros Hnd sorted taken rest.
  assert (Hperm : Permutation (taken ++ rest) (store c)).
  { unfold taken, rest. rewrite firstn_skipn. apply sort_by_created_perm. }
  assert (Hnd2 : NoDup (keys taken ++ keys rest)).
  { unfold keys. rewrite <- map_app. apply (Permutation_NoDup (l := keys (store c))).
    - apply Permutation_map. symmetry. exact Hperm.
    - exact Hnd. }
  assert (Hss : StronglySorted older (taken ++ rest)).
  { unfold taken, rest. rewrite firstn_skipn. apply Sorted_StronglySorted.
    - exact older_trans.
    - apply sort_by_created_sorted. }
  destruct (evict_loop_spec taken c Hnd) as (Hst & Hev & _).
  assert (Hst' : store (evictOldest c) = filter (not_victim (keys taken)) (store c))
    by exact Hst.
  assert (Hin_taken : forall x, In x taken -> not_victim (keys taken) x = false).
  { intros x Hx. unfold not_victim. rewrite (proj2 (existsb_eqb_In _ _)); [reflexivity|].
    apply in_map, Hx. }
  assert (Hin_rest : forall x, In x rest -> not_victim (keys taken) x = true).
  { intros x Hx. unfold not_victim.
    destruct (existsb (String.eqb (fst x)) (keys taken)) eqn:E; [|reflexivity].
    apply existsb_eqb_In in E. exfalso.
    exact (NoDup_app_not_in _ _ _ Hnd2 (in_map fst _ _ Hx) E). }
  split; [exact Hst'|]. split; [|split; [exact Hev|]].
  - rewrite Hst'. eapply perm_trans.
    + apply Permutation_filter_compat. symmetry. exact Hperm.
    + rewrite filter_app, (filter_all_false _ taken Hin_taken), (filter_all_true _ rest Hin_rest).
      reflexivity.
  - intros e f He Hne Hf. rewrite Hst' in Hne, Hf.
    apply filter_In in Hf. destruct Hf as [Hf Hfv].
    assert (He' : In e (taken ++ rest)) by (eapply Permutation_in; [symmetry; exact Hperm | exact He]).
    assert (Hf' : In f (taken ++ rest)) by (eapply Permutation_in; [symmetry; exact Hperm | exact Hf]).
    apply in_app_or in He', Hf'.
    destruct He' as [He'|He'].
    + destruct Hf' as [Hf'|Hf'].
      * rewrite (Hin_taken f Hf') in Hfv. discriminate.
      * exact (StronglySorted_app_rel _ _ _ _ _ Hss He' Hf').
    + exfalso. apply Hne. apply filter_In. split; [exact He | apply Hin_rest, He'].
Qed.

Lemma itemsToRemove_value : itemsToRemove = 100%nat.
Proof. reflexivity. Qed.

Lemma evictOldest_NoDup (c : cstate) :
  NoDup (keys (store c)) -> NoDup (keys (store (evictOldest c))).
Proof.
  intros Hnd. destruct (evictOldest_spec c Hnd) as [Hst _].
  rewrite Hst. apply keys_filter_NoDup, Hnd.
Qed.

Lemma evictOldest_length (c : cstate) :
  NoDup (keys (store c)) ->
  length (store (evictOldest c)) = (length (store c) - itemsToRemove)%nat.
Proof.
  intros Hnd. destruct (evictOldest_spec c Hnd) as (_ & Hp & _).
  rewrite (Permutation_length Hp), length_skipn.
  rewrite (Permutation_length (sort_by_created_perm _)). reflexivity.
Qed.

(** *** The invariant over every sequence of calls *)

Lemma store_after_delete_Inv (c : cstate) (m : list (string * item)) (k : string) :
  Inv c -> m = snd (map_delete (store c) k) ->
  NoDup (keys m) /\ Z.of_nat (length m) <= MAX_CACHE_SIZE.
Proof.
  intros [Hnd Hsz] ->. split; [apply map_delete_NoDup, Hnd|].
  pose proof (map_delete_length (store c) k). unfold size in Hsz. lia.
Qed.

Lemma set_Inv (c : cstate) (k : string) (d : jv) (t now : Z) :
  Inv c -> Inv (set c k d t now).
Proof.
  intros [Hnd Hsz]. unfold set, Inv, size in *. simpl.
  destruct (Z.leb_spec MAX_CACHE_SIZE (Z.of_nat (length (store c)))) as [Hfull|Hroom].
  - pose proof (evictOldest_length c Hnd) as Hl. rewrite itemsToRemove_value in Hl.
    split; [apply map_set_NoDup, evictOldest_NoDup, Hnd|].
    pose proof (map_set_length (store (evictOldest c)) k
                  (mkItem d now (now + t * 1000) t)).
    unfold MAX_CACHE_SIZE in *. lia.
  - split; [apply map_set_NoDup, Hnd|].
    pose proof (map_set_length (store c) k (mkItem d now (now + t * 1000) t)).
    unfold MAX_CACHE_SIZE in *. lia.
Qed.

Lemma step_Inv (c : cstate) (now : Z) (o : op) : Inv c -> Inv (step c now o).
Proof.
  intros HI. pose proof HI as [Hnd Hsz].
  destruct o as [k|k d t|k| |k|k]; simpl.
  - unfold get. destruct (map_get (store c) k) as [it|]; [|exact HI].
    destruct (expiresAt it <? now); [|exact HI].
    exact (store_after_delete_Inv c _ k HI eq_refl).
  - apply set_Inv, HI.
  - unfold del. pose proof (store_after_delete_Inv c _ k HI eq_refl) as H.
    destruct (map_delete (store c) k) as [b m]. exact H.
  - split; [constructor | unfold size; simpl; unfold MAX_CACHE_SIZE; lia].
  - unfold getTTL. destruct (map_get (store c) k); exact HI.
  - unfold has. destruct (map_get (store c) k) as [it|]; [|exact HI].
    destruct (expiresAt it <? now); [|exact HI].
    exact (store_after_delete_Inv c _ k HI eq_refl).
Qed.

Lemma run_from_Inv (tr : list (Z * op)) (c : cstate) : Inv c -> Inv (run_from c tr).
Proof.
  revert c. induction tr as [|[now o] tr IH]; intros c HI; simpl; [exact HI|].
  apply IH, step_Inv, HI.
Qed.

Lemma run_Inv (tr : list (Z * op)) : Inv (run tr).
Proof.
  apply run_from_Inv. split; [constructor | unfold size, MAX_CACHE_SIZE; simpl; lia].
Qed.

(** Strictly after [expiresAt], [get] and [has] report not-found and remove
    the entry, one entry fewer. *)
Lemma get_has_after_expiry (c : cstate) (k : string) (it : item) (now : Z) :
  NoDup (keys (store c)) -> map_get (store c) k = Some it -> expiresAt it < now ->
  fst (get c k now) = JNull /\ fst (has c k now) = false /\
  store (snd (get c k now)) = store (snd (has c k now)) /\
  size (snd (get c k now)) = size c - 1.
Proof.
  intros Hnd Hget Hlt. unfold get, has. rewrite Hget.
  rewrite (proj2 (Z.ltb_lt _ _) Hlt). simpl. repeat split.
  unfold size. simpl. rewrite map_delete_filter by exact Hnd.
  assert (Hin : In (k, it) (store c)).
  { clear -Hget. induction (store c) as [|[k' it'] m IH]; simpl in *; [discriminate|].
    destruct (String.eqb_spec k' k) as [->|]; [left; congruence | right; auto]. }
  apply in_split in Hin. destruct Hin as [l1 [l2 Hsplit]].
  rewrite Hsplit in Hnd |- *. unfold keys in Hnd. rewrite map_app in Hnd. simpl in Hnd.
  apply NoDup_remove_2 in Hnd.
  rewrite filter_app. simpl. rewrite String.eqb_refl. simpl.
  rewrite !filter_all_true.
  - rewrite !length_app. simpl. lia.
  - intros [k2 i2] Hin. simpl. destruct (String.eqb_spec k2 k) as [->|]; [|reflexivity].
    exfalso. apply Hnd. apply in_or_app. right. apply in_map_iff. exists (k, i2). auto.
  - intros [k2 i2] Hin. simpl. destruct (String.eqb_spec k2 k) as [->|]; [|reflexivity].
    exfalso. apply Hnd. apply in_or_app. left. apply in_map_iff. exists (k, i2). auto.
Qed.

End CacheFacts.

(** ** Properties of [generateKey] *)

Module KeyFacts.
Import CacheService.
Local Open Scope string_scope.

Definition str_le (a b : string) : Prop := String.leb a b = true.

Lemma string_compare_trans (s1 s2 s3 : string) :
  String.compare s1 s2 <> Gt -> String.compare s2 s3 <> Gt -> String.compare s1 s3 <> Gt.
Proof.
  revert s2 s3. induction s1 as [|a s1 IH]; intros s2 s3 H12 H23.
  - destruct s3; simpl; discriminate.
  - destruct s2 as [|b s2]; [simpl in H12; congruence|].
    destruct s3 as [|c s3]; [simpl in H23; congruence|].
    simpl in *. unfold Ascii.compare in *.
    destruct (N.compare_spec (N_of_ascii a) (N_of_ascii b)) as [Eab|Lab|Gab];
    destruct (N.compare_spec (N_of_ascii b) (N_of_ascii c)) as [Ebc|Lbc|Gbc];
    try congruence;
    destruct (N.compare_spec (N_of_ascii a) (N_of_ascii c)); try lia; try discriminate.
    apply (IH s2 s3); assumption.
Qed.

Lemma str_le_trans (a b c : string) : str_le a b -> str_le b c -> str_le a c.
Proof.
  unfold str_le, String.leb.
  destruct (String.compare a b) eqn:E1; try discriminate;
  destruct (String.compare b c) eqn:E2; try discriminate;
  destruct (String.compare a c) eqn:E3; try reflexivity;
  exfalso; apply (string_compare_trans a b c); congruence.
Qed.

Lemma insert_str_perm (x : string) (l : list string) :
  Permutation (insert_str x l) (x :: l).
Proof.
  induction l as [|y l IH]; simpl; [reflexivity|].
  destruct (String.leb x y); [reflexivity|].
  eapply perm_trans; [apply perm_skip, IH | apply perm_swap].
Qed.

Lemma sort_strings_perm (l : list string) : Permutation (sort_strings l) l.
Proof.
  induction l as [|x l IH]; simpl; [reflexivity|].
  eapply perm_trans; [apply insert_str_perm | apply perm_skip, IH].
Qed.

Lemma insert_str_sorted (x : string) (l : list string) :
  Sorted str_le l -> Sorted str_le (insert_str x l).
Proof.
  induction l as [|y l IH]; simpl; intros Hs; [repeat constructor|].
  destruct (String.leb x y) eqn:Exy.
  - constructor; [exact Hs | constructor; exact Exy].
  - assert (Eyx : str_le y x).
    { destruct (String.leb_total x y); [congruence | assumption]. }
    inversion Hs as [|? ? Hs' Hhd]; subst.
    constructor; [apply IH, Hs'|].
    destruct l as [|z l]; simpl; [constructor; exact Eyx|].
    destruct (String.leb x z); constructor; [exact Eyx|].
    inversion Hhd; assumption.
Qed.

Lemma sort_strings_sorted (l : list string) : Sorted str_le (sort_strings l).
Proof.
  induction l as [|x l IH]; simpl; [constructor|]. apply insert_str_sorted, IH.
Qed.

(** Two strongly sorted lists with the same elements under an antisymmetric
    order are equal: the result of the sort does not depend on the order of
    its input. *)
Lemma sorted_perm_unique (l1 l2 : list string) :
  StronglySorted str_le l1 -> StronglySorted str_le l2 -> Permutation l1 l2 -> l1 = l2.
Proof.
  revert l2. induction l1 as [|a l1 IH]; intros l2 S1 S2 P.
  - symmetry. apply Permutation_nil, P.
  - destruct l2 as [|b l2]; [apply Permutation_sym, Permutation_nil in P; discriminate|].
    inversion S1 as [|? ? S1' F1]; inversion S2 as [|? ? S2' F2]; subst.
    assert (Hab : a = b).
    { assert (Ha : In a (b :: l2)) by (eapply Permutation_in; [exact P | now left]).
      assert (Hb : In b (a :: l1)) by (eapply Permutation_in; [symmetry; exact P | now left]).
      destruct Ha as [->|Ha]; [reflexivity|].
      destruct Hb as [->|Hb]; [reflexivity|].
      rewrite Forall_forall in F1, F2.
      apply String.leb_antisym; [apply F1, Hb | apply F2, Ha]. }
    subst b. f_equal. apply IH; [exact S1' | exact S2' | exact (Permutation_cons_inv P)].
Qed.

Lemma sort_strings_perm_eq (l1 l2 : list string) :
  Permutation l1 l2 -> sort_strings l1 = sort_strings l2.
Proof.
  intros P. apply sorted_perm_unique.
  - apply Sorted_StronglySorted; [exact str_le_trans | apply sort_strings_sorted].
  - apply Sorted_StronglySorted; [exact str_le_trans | apply sort_strings_sorted].
  - eapply perm_trans; [apply sort_strings_perm|].
    eapply perm_trans; [apply P | symmetry; apply sort_strings_perm].
Qed.

Lemma prop_lookup_In (params : list (string * jv)) (k : string) (v : jv) :
  NoDup (map fst params) -> In (k, v) params -> prop_lookup params k = v.
Proof.
  induction params as [|[k' v'] params IH]; simpl; intros Hnd Hin; [contradiction|].
  inversion Hnd as [|? ? Hk' Hnd']; subst.
  destruct (String.eqb_spec k' k) as [->|Hne].
  - destruct Hin as [E|Hin]; [congruence|].
    exfalso. apply Hk'. apply in_map_iff. exists (k, v). auto.
  - destruct Hin as [E|Hin]; [congruence|]. apply IH; assumption.
Qed.

Lemma prop_lookup_notin (params : list (string * jv)) (k : string) :
  ~ In k (map fst params) -> prop_lookup params k = JUndef.
Proof.
  induction params as [|[k' v'] params IH]; simpl; intros Hk; [reflexivity|].
  destruct (String.eqb_spec k' k); [tauto|]. apply IH. tauto.
Qed.

Lemma prop_lookup_perm (p1 p2 : list (string * jv)) (k : string) :
  NoDup (map fst p1) -> Permutation p1 p2 -> prop_lookup p1 k = prop_lookup p2 k.
Proof.
  intros Hnd P.
  assert (Hnd2 : NoDup (map fst p2)) by (eapply Permutation_NoDup; [apply Permutation_map, P | exact Hnd]).
  destruct (in_dec string_dec k (map fst p1)) as [Hin|Hout].
  - apply in_map_iff in Hin. destruct Hin as [[k0 v] [Ek Hin]]. simpl in Ek. subst k0.
    rewrite (prop_lookup_In p1 k v Hnd Hin).
    symmetry. apply prop_lookup_In; [exact Hnd2 | eapply Permutation_in; eassumption].
  - rewrite (prop_lookup_notin p1 k Hout). symmetry. apply prop_lookup_notin.
    intros Hin. apply Hout. eapply Permutation_in; [symmetry; apply Permutation_map, P | exact Hin].
Qed.

Lemma normalizedParts_perm (p1 p2 : list (string * jv)) :
  NoDup (map fst p1) -> Permutation p1 p2 -> normalizedParts p1 = normalizedParts p2.
Proof.
  intros Hnd P. unfold normalizedParts.
  rewrite (sort_strings_perm_eq (map fst p1) (map fst p2)) by (apply Permutation_map, P).
  apply flat_map_ext. intros k. unfold normalize_part.
  rewrite (prop_lookup_perm p1 p2 k Hnd P). reflexivity.
Qed.

Lemma normalizedParts_nonempty (params : list (string * jv)) (x : string) :
  In x (normalizedParts params) -> x <> EmptyString.
Proof.
  unfold normalizedParts. intros Hin. apply in_flat_map in Hin.
  destruct Hin as [k [_ Hx]]. unfold normalize_part in Hx.
  destruct (prop_lookup params k); simpl in Hx; try contradiction;
  destruct Hx as [<-|[]]; destruct k; discriminate.
Qed.

Lemma concat_nonempty (sep x : string) (r : list string) :
  x <> EmptyString -> String.concat sep (x :: r) <> EmptyString.
Proof.
  intros Hx. simpl. destruct r; [exact Hx|].
  destruct x; [congruence | discriminate].
Qed.

Lemma generateKey_shape (prefix : string) (params : list (string * jv)) :
  (normalizedParts params <> [] ->
   generateKey prefix params = prefix ++ "_" ++ String.concat "_" (normalizedParts params)) /\
  (normalizedParts params = [] -> generateKey prefix params = prefix).
Proof.
  unfold generateKey. split.
  - intros Hne. destruct (normalizedParts params) as [|x r] eqn:E; [congruence|].
    assert (Hx : x <> EmptyString) by (apply (normalizedParts_nonempty params); rewrite E; now left).
    pose proof (concat_nonempty "_" x r Hx) as Hc.
    unfold truthy. rewrite (proj2 (String.eqb_neq _ _) Hc). reflexivity.
  - intros ->. reflexivity.
Qed.

Lemma prop_lookup_found (params : list (string * jv)) (k : string) :
  In k (map fst params) -> In (k, prop_lookup params k) params.
Proof.
  induction params as [|[k' v'] params IH]; simpl; intros Hk; [contradiction|].
  destruct (String.eqb_spec k' k) as [->|Hne]; [now left|].
  right. apply IH. destruct Hk; [congruence | assumption].
Qed.

Lemma flat_map_all_nil {A B} (f : A -> list B) (l : list A) :
  (forall x, In x l -> f x = []) -> flat_map f l = [].
Proof.
  induction l as [|x l IH]; simpl; intros H; [reflexivity|].
  rewrite (H x (or_introl eq_refl)). apply IH. intros y Hy. apply H. now right.
Qed.

Lemma all_null_parts (params : list (string * jv)) :
  Forall (fun p => snd p = JNull \/ snd p = JUndef) params ->
  normalizedParts params = [].
Proof.
  intros Hall. unfold normalizedParts. apply flat_map_all_nil.
  intros k Hk. apply (Permutation_in _ (sort_strings_perm _)) in Hk.
  apply prop_lookup_found in Hk. rewrite Forall_forall in Hall.
  destruct (Hall _ Hk) as [E|E]; simpl in E; unfold normalize_part; rewrite E; reflexivity.
Qed.

End KeyFacts.

(** ** The claims on the cache *)

Module CacheClaims.
Import CacheService CacheFacts KeyFacts.
Local Open Scope string_scope.

(** Claim C1.  After every sequence of calls to the cache, the [Map] holds at
    most [MAX_CACHE_SIZE] (1000) entries.  When [set] is called on a full
    cache, it first runs [evictOldest], which removes exactly
    [ceil(1000 * 0.1) = 100] entries, each created no later than any entry
    that stays (expired or not), and adds one to [evictions] per removed
    entry; only then the new entry is written. *)
Theorem set_bounded_evicts_oldest (tr : list (Z * op)) :
  size (run tr) <= MAX_CACHE_SIZE /\
  forall (k : string) (d : jv) (t now : Z),
    MAX_CACHE_SIZE <= size (run tr) ->
    let c := run tr in
    let c1 := evictOldest c in
    set c k d t now
      = mkC (map_set (store c1) k (mkItem d now (now + t * 1000) t))
            (incr_sets (stats c1)) /\
    size c1 = size c - 100 /\
    evictions (stats c1) = evictions (stats c) + 100 /\
    (forall e, In e (store c1) -> In e (store c)) /\
    (forall e f, In e (store c) -> ~ In e (store c1) -> In f (store c1) ->
                 createdAt (snd e) <= createdAt (snd f)) /\
    size (set c k d t now) <= MAX_CACHE_SIZE.
Proof.
  pose proof (run_Inv tr) as HI. destruct HI as [Hnd Hsz].
  split; [exact Hsz|].
  intros k d t now Hfull c c1.
  destruct (evictOldest_spec c Hnd) as (Hst & _ & Hev & Hold).
  pose proof (evictOldest_length c Hnd) as Hl. rewrite itemsToRemove_value in Hl.
  assert (Hset : (MAX_CACHE_SIZE <=? size c)%Z = true) by (apply Z.leb_le; exact Hfull).
  unfold size, MAX_CACHE_SIZE in Hsz, Hfull.
  split; [|split; [|split; [|split; [|split]]]].
  - unfold set. rewrite Hset. reflexivity.
  - unfold size. fold c1 in Hl. rewrite Hl. fold c in Hsz, Hfull. lia.
  - unfold c1. rewrite Hev, length_firstn, (Permutation_length (sort_by_created_perm _)).
    rewrite itemsToRemove_value. fold c in Hsz, Hfull. f_equal. lia.
  - intros e He. unfold c1 in He. rewrite Hst in He. apply filter_In in He. tauto.
  - exact Hold.
  - exact (proj2 (set_Inv c k d t now (run_Inv tr))).
Qed.

(** A run of 1000 [set] calls with distinct keys fills the cache; the next
    [set] evicts. *)
Lemma set_bounded_evicts_oldest_witness :
  MAX_CACHE_SIZE <= size (run fill_trace) /\
  (let c := run fill_trace in
   let c1 := evictOldest c in
   set c "new" (JStr "x") 60 5000
     = mkC (map_set (store c1) "new" (mkItem (JStr "x") 5000 (5000 + 60 * 1000) 60))
           (incr_sets (stats c1)) /\
   size c1 = size c - 100 /\
   evictions (stats c1) = evictions (stats c) + 100 /\
   (forall e, In e (store c1) -> In e (store c)) /\
   (forall e f, In e (store c) -> ~ In e (store c1) -> In f (store c1) ->
                createdAt (snd e) <= createdAt (snd f)) /\
   size (set c "new" (JStr "x") 60 5000) <= MAX_CACHE_SIZE).
Proof.
  assert (H : MAX_CACHE_SIZE <= size (run fill_trace))
    by (apply Z.leb_le; vm_compute; reflexivity).
  split; [exact H|].
  exact (proj2 (set_bounded_evicts_oldest fill_trace) "new" (JStr "x") 60 5000 H).
Defined.

(** Claim C4 (code defect).  A value stored with [set("k", "v", 60)] at time
    [0] has [expiresAt = 60000].  At [now = 60000 >= expiresAt], [get] still
    returns the value (counting a hit) and [has] answers [true]; neither removes
    the entry, although [getTTL] at the same instant already reports [0]. *)
Theorem get_at_expiry_still_hits :
  let c := set init "k" (JStr "v") 60 0 in
  map_get (store c) "k" = Some (mkItem (JStr "v") 0 60000 60) /\
  get c "k" 60000 = (JStr "v", mkC (store c) (incr_hits (stats c))) /\
  has c "k" 60000 = (true, c) /\
  fst (getTTL c "k" 60000) = 0 /\
  size (snd (get c "k" 60000)) = size c.
Proof. vm_compute. repeat split. Qed.

(** Claim C8.  [clear()] empties the map and leaves the four counters
    [hits], [misses], [sets] and [evictions] as they were. *)
Theorem clear_keeps_counters (c : cstate) :
  store (clear c) = [] /\ size (clear c) = 0 /\ stats (clear c) = stats c.
Proof. repeat split. Qed.

(** Claim C10.  [getTTL] leaves the cache state (map and counters) unchanged
    for every key; on a present entry whose [expiresAt] is not after [now] it
    returns [0] and does not remove the entry. *)
Theorem getTTL_pure (c : cstate) (k : string) (now : Z) :
  snd (getTTL c k now) = c /\
  forall it, map_get (store c) k = Some it -> expiresAt it <= now ->
    fst (getTTL c k now) = 0 /\ map_get (store (snd (getTTL c k now))) k = Some it.
Proof.
  unfold getTTL. destruct (map_get (store c) k) as [it|] eqn:E; simpl.
  - split; [reflexivity|]. intros it' E' Hle. injection E' as <-.
    split; [|exact E]. destruct (Z.ltb_spec 0 (expiresAt it - now)); [lia | reflexivity].
  - split; [reflexivity|]. intros it' E'. discriminate.
Qed.

(** Claim C9.  When every parameter is [null] or [undefined] (or there is
    none), [generateKey(prefix, params)] is the bare [prefix], no [_] added. *)
Theorem generateKey_bare_prefix (prefix : string) (params : list (string * jv))
  (Hnull : Forall (fun p => snd p = JNull \/ snd p = JUndef) params) :
  generateKey prefix params = prefix.
Proof.
  apply (proj2 (generateKey_shape prefix params)). apply all_null_parts, Hnull.
Qed.

Lemma generateKey_bare_prefix_witness :
  Forall (fun p => snd p = JNull \/ snd p = JUndef) [("a", JNull); ("b", JUndef)] /\
  generateKey "emdex_api_v1_x" [("a", JNull); ("b", JUndef)] = "emdex_api_v1_x".
Proof.
  assert (H : Forall (fun p => snd p = JNull \/ snd p = JUndef) [("a", JNull); ("b", JUndef)]).
  { constructor; [now left|]. constructor; [now right|]. constructor. }
  split; [exact H | exact (generateKey_bare_prefix "emdex_api_v1_x" _ H)].
Defined.

(** Claim C7 as stated fails on empty parameters: with no [key=value] pair
    left, the key is the bare prefix, not [prefix_] followed by the (empty)
    joined string. *)
Lemma generateKey_empty_not_prefixed :
  generateKey "p" [] <> ("p" ++ "_" ++ String.concat "_" (normalizedParts []))%string.
Proof. vm_compute. discriminate. Qed.

(** Claim C7 (amended).  [generateKey] depends only on the set of
    (name, value) properties, not on their order; it sorts the names
    ascending, drops [null]/[undefined] values, writes [name=value] with the
    value stringified, lowercased and trimmed, and joins the pairs with [_];
    it prepends [prefix_] when at least one pair remains and returns the bare
    prefix otherwise.  [generateKey("p", {b: "2", a: "1"})] equals
    [generateKey("p", {a: "1", b: "2"})], which is ["p_a=1_b=2"]. *)
Theorem generateKey_canonical :
  (forall prefix p1 p2, NoDup (map fst p1) -> Permutation p1 p2 ->
     generateKey prefix p1 = generateKey prefix p2) /\
  (forall params : list (string * jv),
     Permutation (sort_strings (map fst params)) (map fst params) /\
     Sorted str_le (sort_strings (map fst params))) /\
  (forall params k v, prop_lookup params k = v -> v <> JNull -> v <> JUndef ->
     normalize_part params k = Some (k ++ "=" ++ trim (toLowerCase (to_js_string v)))) /\
  (forall prefix params, normalizedParts params <> [] ->
     generateKey prefix params = prefix ++ "_" ++ String.concat "_" (normalizedParts params)) /\
  (forall prefix params, normalizedParts params = [] -> generateKey prefix params = prefix) /\
  generateKey "p" [("b", JStr "2"); ("a", JStr "1")]
    = generateKey "p" [("a", JStr "1"); ("b", JStr "2")] /\
  generateKey "p" [("a", JStr "1"); ("b", JStr "2")] = "p_a=1_b=2".
Proof.
  split; [|split; [|split; [|split; [|split; [|split]]]]].
  - intros prefix p1 p2 Hnd P. unfold generateKey.
    rewrite (normalizedParts_perm p1 p2 Hnd P). reflexivity.
  - intros params. split; [apply sort_strings_perm | apply sort_strings_sorted].
  - intros params k v E Hn Hu. unfold normalize_part. rewrite E.
    destruct v; try congruence; reflexivity.
  - intros prefix params. apply (proj1 (generateKey_shape prefix params)).
  - intros prefix params. apply (proj2 (generateKey_shape prefix params)).
  - vm_compute. reflexivity.
  - vm_compute. reflexivity.
Qed.

End CacheClaims.

(** ** Properties of the EMDEX service *)

Module EmdexFacts.
Import CacheService Emdex.
Local Open Scope string_scope.

Definition with_sent (s : st) (l : list request) : st :=
  mkSt (cachedToken s) (tokenExpiresAt s) (cache s) l (mockData s).

Definition token_cleared (s : st) : st := mkSt JNull ExpNull (cache s) (sent s) (mockData s).

Definition is_nullish (v : jv) : bool :=
  match v with JNull | JUndef => true | _ => false end.

(** The code of an error thrown after [await response.text()]: the intended
    code [c], or [NETWORK_ERROR] when the body cannot be read. *)
Definition text_code (b : resp_body) (c : code) : code :=
  match b with
  | BodyCut => NETWORK_ERROR
  | _ => c
  end.

(** [s'] differs from [s] at most in [mockData]. *)
Definition same_but_mock (s s' : st) : Prop :=
  cachedToken s' = cachedToken s /\ tokenExpiresAt s' = tokenExpiresAt s /\
  cache s' = cache s /\ sent s' = sent s.

(** Code of the mock service: it changes nothing but [mockData], and what it
    throws is never an [EmdexError]. *)
Definition mock_step {A} (m : M A) : Prop :=
  forall s, same_but_mock s (snd (m s)) /\ forall e, fst (m s) = Err e -> e = OtherError.

Section WithEnv.
Variable E : env.

(** What one login call leaves, read off [login] and the [catch] of
    [getToken]; [s'] already records the login request. *)
Definition login_outcome (r : response) (now : Z) (s' : st) : result jv * st :=
  match r with
  | NetFail => (Err (EmdexError NETWORK_ERROR), token_cleared s')
  | Resp status body =>
      if negb (ok_status status) then
        (Err (EmdexError (text_code body AUTH_FAILED)), token_cleared s') else
      match body with
      | BodyJson data =>
          if is_nullish data then (Err (EmdexError NETWORK_ERROR), token_cleared s') else
          let token := js_or (get_prop data "token") (get_prop data "access_token") in
          if negb (truthy token) then (Err (EmdexError AUTH_FAILED), token_cleared s') else
          let expiresIn :=
            js_or (js_or (get_prop data "expires_in") (get_prop data "expiresIn")) (JNum 3600) in
          (Ok token, mkSt token (expiry_of now expiresIn) (cache s') (sent s') (mockData s'))
      | _ => (Err (EmdexError NETWORK_ERROR), token_cleared s')
      end
  end.

Definition credentials : option (string * string * string) :=
  match env_str (EMDEX_API_URL E), env_str (EMDEX_EMAIL E), env_str (EMDEX_PASSWORD E) with
  | Some u, Some e, Some p => Some (u, e, p)
  | _, _, _ => None
  end.

Lemma getToken_fresh (now : Z) (s : st) :
  token_fresh s now = true -> getToken E now s = (Ok (cachedToken s), s).
Proof. intros H. unfold getToken, bind, get_st, ret. rewrite H. reflexivity. Qed.

Lemma getToken_no_credentials (now : Z) (s : st) :
  token_fresh s now = false -> credentials = None ->
  getToken E now s = (Err (EmdexError AUTH_FAILED), s).
Proof.
  intros H Hc. unfold credentials in Hc. unfold getToken, bind, get_st. rewrite H.
  destruct (env_str (EMDEX_API_URL E)), (env_str (EMDEX_EMAIL E)), (env_str (EMDEX_PASSWORD E));
    try discriminate; reflexivity.
Qed.

Lemma getToken_login (now : Z) (s : st) (u e p : string) :
  token_fresh s now = false -> credentials = Some (u, e, p) ->
  getToken E now s =
    login_outcome (upstream E (length (sent s))) now
      (with_sent s (sent s ++ [LoginReq (u ++ "/api/v1/login") e p])).
Proof.
  intros H Hc. unfold credentials in Hc. unfold getToken, bind, get_st. rewrite H.
  destruct (env_str (EMDEX_API_URL E)), (env_str (EMDEX_EMAIL E)), (env_str (EMDEX_PASSWORD E));
    try discriminate.
  injection Hc as -> -> ->.
  unfold try_catch, login, bind, fetch, ret, throw, text, json, read_prop, set_token, clear_token.
  destruct (upstream E (length (sent s))) as [|status body]; [reflexivity|].
  simpl. destruct (ok_status status); simpl; [|destruct body; reflexivity].
  destruct body as [| |data]; try reflexivity.
  destruct data; simpl; try reflexivity;
  unfold js_or;
  repeat match goal with
         | |- context [if ?b then _ else _] => destruct b eqn:?; simpl
         end; reflexivity.
Qed.

(** The [catch] of [emdexRequest]. *)
Definition classify (e : exn) : exn :=
  match e with
  | EmdexError c => EmdexError c
  | OtherError => EmdexError NETWORK_ERROR
  end.

Lemma emdexAttempt_unfold (ep : string) (b : list (string * jv)) (isRetry : bool)
  (now : Z) (again : M jv) (s : st) (apiUrl : string) :
  USE_MOCK E = false -> env_str (EMDEX_API_URL E) = Some apiUrl ->
  emdexAttempt E ep b isRetry now again s =
  match getToken E now s with
  | (Err e, s1) => (Err (classify e), s1)
  | (Ok tok, s1) =>
      let s2 := with_sent s1 (sent s1 ++ [DataReq (apiUrl ++ ep) tok]) in
      match upstream E (length (sent s1)) with
      | NetFail => (Err (EmdexError NETWORK_ERROR), s2)
      | Resp status rb =>
          if (status =? 401)%Z && negb isRetry then again (token_cleared s2)
          else if negb (ok_status status) then (Err (EmdexError (text_code rb REQUEST_FAILED)), s2)
          else match rb with
               | BodyJson d => (Ok d, s2)
               | _ => (Err (EmdexError NETWORK_ERROR), s2)
               end
      end
  end.
Proof.
  intros Hm Hu. unfold emdexAttempt. rewrite Hm, Hu.
  unfold bind, try_catch, fetch, text, json, ret, throw, clear_token, set_token.
  destruct (getToken E now s) as [[tok|e] s1]; [|destruct e; reflexivity].
  destruct (upstream E (length (sent s1))) as [|status rb]; [reflexivity|].
  destruct ((status =? 401)%Z && negb isRetry); [reflexivity|].
  destruct (ok_status status); destruct rb; reflexivity.
Qed.

(** An attempt with [isRetry = true] never runs its continuation. *)
Lemma emdexAttempt_retry_final (ep : string) (b : list (string * jv)) (now : Z)
  (k1 k2 : M jv) (s : st) :
  emdexAttempt E ep b true now k1 s = emdexAttempt E ep b true now k2 s.
Proof.
  destruct (USE_MOCK E) eqn:Hm.
  { unfold emdexAttempt. rewrite Hm. reflexivity. }
  destruct (env_str (EMDEX_API_URL E)) as [apiUrl|] eqn:Hu.
  2: { unfold emdexAttempt. rewrite Hm, Hu. reflexivity. }
  rewrite !(emdexAttempt_unfold ep b true now _ s apiUrl Hm Hu).
  destruct (getToken E now s) as [[tok|e] s1]; [|reflexivity].
  destruct (upstream E (length (sent s1))) as [|status rb]; [reflexivity|].
  simpl negb. rewrite andb_false_r. reflexivity.
Qed.

Lemma data_calls_app (l1 l2 : list request) :
  data_calls (l1 ++ l2) = (data_calls l1 + data_calls l2)%nat.
Proof. unfold data_calls. rewrite filter_app, length_app. reflexivity. Qed.

Lemma data_calls_one (u : string) (t : jv) : data_calls [DataReq u t] = 1%nat.
Proof. reflexivity. Qed.

(** *** The mock service touches nothing but [mockData]. *)

Lemma same_but_mock_refl (s : st) : same_but_mock s s.
Proof. repeat split. Qed.

Lemma same_but_mock_trans (s1 s2 s3 : st) :
  same_but_mock s1 s2 -> same_but_mock s2 s3 -> same_but_mock s1 s3.
Proof.
  intros (H1 & H2 & H3 & H4) (H5 & H6 & H7 & H8).
  repeat split; congruence.
Qed.

Lemma mock_step_ret {A} (a : A) : mock_step (ret a).
Proof. intros s. split; [apply same_but_mock_refl|discriminate]. Qed.

Lemma mock_step_throw_other {A} : mock_step (A := A) (throw OtherError).
Proof. intros s. split; [apply same_but_mock_refl|]. simpl. congruence. Qed.

Lemma mock_step_bind {A B} (m : M A) (k : A -> M B) :
  mock_step m -> (forall a, mock_step (k a)) -> mock_step (bind m k).
Proof.
  intros Hm Hk s. unfold bind. destruct (Hm s) as [Hs He].
  destruct (m s) as [[a|e] s1]; simpl in *.
  - destruct (Hk a s1) as [Hs' He']. split; [eapply same_but_mock_trans; eauto|exact He'].
  - split; [exact Hs|]. intros e' H. injection H as <-. apply He. reflexivity.
Qed.

Lemma mock_step_try_catch {A} (m : M A) (h : exn -> M A) :
  mock_step m -> (forall e, mock_step (h e)) -> mock_step (try_catch m h).
Proof.
  intros Hm Hh s. unfold try_catch. destruct (Hm s) as [Hs He].
  destruct (m s) as [[a|e] s1]; simpl in *.
  - split; [exact Hs|discriminate].
  - destruct (Hh e s1) as [Hs' He']. split; [eapply same_but_mock_trans; eauto|exact He'].
Qed.

Lemma mock_step_get_st : mock_step get_st.
Proof. intros s. split; [apply same_but_mock_refl|discriminate]. Qed.

Lemma mock_step_set_mockData (v : jv) : mock_step (set_mockData v).
Proof. intros s. split; [repeat split|discriminate]. Qed.

Lemma mock_step_read_prop (v : jv) (k : string) : mock_step (read_prop v k).
Proof. unfold read_prop. destruct v; auto using mock_step_ret, mock_step_throw_other. Qed.

Lemma mock_step_as_string (v : jv) : mock_step (as_string v).
Proof. unfold as_string. destruct v; auto using mock_step_ret, mock_step_throw_other. Qed.

Lemma mock_step_as_array (v : jv) : mock_step (as_array v).
Proof. unfold as_array. destruct v; auto using mock_step_ret, mock_step_throw_other. Qed.

Lemma mock_step_filterM (p : jv -> M bool) (l : list jv) :
  (forall x, mock_step (p x)) -> mock_step (filterM p l).
Proof.
  intros Hp. induction l as [|x l IH]; simpl; [apply mock_step_ret|].
  apply mock_step_bind; [apply Hp|]. intros keep.
  apply mock_step_bind; [exact IH|]. intros r. apply mock_step_ret.
Qed.

Lemma mock_step_findM (p : jv -> M bool) (l : list jv) :
  (forall x, mock_step (p x)) -> mock_step (findM p l).
Proof.
  intros Hp. induction l as [|x l IH]; simpl; [apply mock_step_ret|].
  apply mock_step_bind; [apply Hp|]. intros found.
  destruct found; [apply mock_step_ret|exact IH].
Qed.

Create HintDb mock_step.
#[local] Hint Resolve mock_step_ret mock_step_throw_other mock_step_get_st mock_step_set_mockData
  mock_step_read_prop mock_step_as_string mock_step_as_array : mock_step.

Ltac mock_step_tac :=
  repeat match goal with
         | |- forall _, _ => intros ?
         | |- mock_step (bind _ _) => apply mock_step_bind
         | |- mock_step (try_catch _ _) => apply mock_step_try_catch
         | |- mock_step (filterM _ _) => apply mock_step_filterM
         | |- mock_step (findM _ _) => apply mock_step_findM
         | |- mock_step ((fun _ => _) _) => cbv beta
         | |- mock_step (if ?b then _ else _) => destruct b
         | |- mock_step (match ?o with None => _ | Some _ => _ end) => destruct o
         | |- mock_step (let '(_, _) := ?p in _) => destruct p
         | |- mock_step _ => solve [eauto with mock_step]
         end.

Lemma mock_step_lower_field (v : jv) (k : string) : mock_step (lower_field v k).
Proof. unfold lower_field. mock_step_tac. Qed.

Lemma mock_step_array_field (v : jv) (k : string) : mock_step (array_field v k).
Proof. unfold array_field. mock_step_tac. Qed.

Lemma mock_step_nonblank (q : jv) : mock_step (nonblank q).
Proof. unfold nonblank. mock_step_tac. Qed.

Lemma mock_step_loadMockData : mock_step (loadMockData E).
Proof. unfold loadMockData. mock_step_tac. Qed.

Lemma mock_step_find_by_id (l : list jv) (id : jv) : mock_step (find_by_id l id).
Proof. unfold find_by_id. mock_step_tac. Qed.

Lemma mock_step_related_brands (l : list jv) (g : jv) : mock_step (related_brands l g).
Proof. unfold related_brands. mock_step_tac. all: apply mock_step_lower_field. Qed.

#[local] Hint Resolve mock_step_lower_field mock_step_array_field mock_step_nonblank
  mock_step_loadMockData mock_step_find_by_id mock_step_related_brands : mock_step.

Lemma mock_step_mockEmdexRequest (ep : string) (b : list (string * jv)) (now : Z) :
  mock_step (mockEmdexRequest E ep b now).
Proof.
  unfold mockEmdexRequest, mockLogin, mockBrandSearch, mockGenericSearch, mockBrandDetails,
    mockGenericDetails, mockVerifyNafdac, mockBrandsForGeneric.
  mock_step_tac.
Qed.

(** [getToken] sends no data request and at most one request; it does not
    touch the response cache. *)
Lemma getToken_frame (now : Z) (s : st) :
  exists l, sent (snd (getToken E now s)) = (sent s ++ l)%list /\ data_calls l = 0%nat /\
            (length l <= 1)%nat /\ cache (snd (getToken E now s)) = cache s.
Proof.
  destruct (token_fresh s now) eqn:Hf.
  - rewrite (getToken_fresh now s Hf). exists []. rewrite app_nil_r. auto.
  - destruct credentials as [[[u e] p]|] eqn:Hc.
    + rewrite (getToken_login now s u e p Hf Hc).
      exists [LoginReq (u ++ "/api/v1/login") e p].
      unfold login_outcome.
      destruct (upstream E (length (sent s))) as [|status [| |data]]; simpl; [auto|..];
        destruct (ok_status status); simpl; auto;
        destruct (is_nullish data); simpl; auto;
        destruct (truthy (js_or (get_prop data "token") (get_prop data "access_token")));
        simpl; auto.
    + rewrite (getToken_no_credentials now s Hf Hc). exists []. rewrite app_nil_r. auto.
Qed.

Lemma emdexAttempt_calls (ep : string) (b : list (string * jv)) (isRetry : bool)
  (now : Z) (again : M jv) (K : nat) (s : st) :
  (forall s', (data_calls (sent (snd (again s'))) <= data_calls (sent s') + K)%nat) ->
  (data_calls (sent (snd (emdexAttempt E ep b isRetry now again s)))
     <= data_calls (sent s) + 1 + K)%nat.
Proof.
  intros Hk. destruct (USE_MOCK E) eqn:Hm.
  { unfold emdexAttempt. rewrite Hm.
    destruct (mock_step_mockEmdexRequest ep b now s) as [(_ & _ & _ & Hs) _].
    rewrite Hs. lia. }
  destruct (env_str (EMDEX_API_URL E)) as [apiUrl|] eqn:Hu.
  2: { unfold emdexAttempt. rewrite Hm, Hu. simpl. lia. }
  rewrite (emdexAttempt_unfold ep b isRetry now again s apiUrl Hm Hu).
  destruct (getToken_frame now s) as (l & Hl & Hd & _ & _).
  destruct (getToken E now s) as [[tok|e] s1]; simpl in Hl.
  2: { simpl. rewrite Hl, data_calls_app, Hd. lia. }
  destruct (upstream E (length (sent s1))) as [|status rb].
  { simpl. rewrite data_calls_app, Hl, data_calls_app, Hd, data_calls_one. lia. }
  destruct ((status =? 401)%Z && negb isRetry).
  - cbv zeta.
    set (s2 := token_cleared (with_sent s1 (sent s1 ++ [DataReq (apiUrl ++ ep) tok]))).
    assert (Hs2 : data_calls (sent s2) = (data_calls (sent s) + 1)%nat).
    { unfold s2. simpl. rewrite data_calls_app, Hl, data_calls_app, Hd, data_calls_one. lia. }
    pose proof (Hk s2). lia.
  - destruct (ok_status status); [destruct rb|]; simpl;
      rewrite data_calls_app, Hl, data_calls_app, Hd, data_calls_one; lia.
Qed.

(** The raw request does not touch the response cache. *)
Lemma emdexAttempt_cache (ep : string) (b : list (string * jv)) (isRetry : bool)
  (now : Z) (again : M jv) (s : st) :
  (forall s', cache (snd (again s')) = cache s') ->
  cache (snd (emdexAttempt E ep b isRetry now again s)) = cache s.
Proof.
  intros Hk. destruct (USE_MOCK E) eqn:Hm.
  { unfold emdexAttempt. rewrite Hm.
    exact (proj1 (proj2 (proj2 (proj1 (mock_step_mockEmdexRequest ep b now s))))). }
  destruct (env_str (EMDEX_API_URL E)) as [apiUrl|] eqn:Hu.
  2: { unfold emdexAttempt. rewrite Hm, Hu. reflexivity. }
  rewrite (emdexAttempt_unfold ep b isRetry now again s apiUrl Hm Hu).
  destruct (getToken_frame now s) as (l & _ & _ & _ & Hc).
  destruct (getToken E now s) as [[tok|e] s1]; simpl in Hc; [|exact Hc].
  destruct (upstream E (length (sent s1))) as [|status rb]; [exact Hc|].
  destruct ((status =? 401)%Z && negb isRetry).
  - rewrite Hk. exact Hc.
  - destruct (ok_status status); [destruct rb|]; exact Hc.
Qed.

Lemma emdexRequest_cache (ep : string) (b : list (string * jv)) (isRetry : bool)
  (now : Z) (s : st) :
  cache (snd (emdexRequest E ep b isRetry now s)) = cache s.
Proof.
  unfold emdexRequest. apply emdexAttempt_cache. intros s'.
  apply emdexAttempt_cache. intros s''. reflexivity.
Qed.

End WithEnv.
End EmdexFacts.

(** ** The claims on the EMDEX service *)

Module EmdexClaims.
Import CacheService Emdex EmdexFacts Scenarios.
Local Open Scope string_scope.

(** Claim C2, as stated, fails when the body of the second 401 cannot be
    read: [await response.text()] rejects, the [catch] of [emdexRequest]
    maps that to [NETWORK_ERROR], and the call ends with [NETWORK_ERROR]
    after two data requests, not with [REQUEST_FAILED]. *)
Lemma emdexRequest_cut_counterexample :
  fst (emdexRequest E_401_cut search_ep search_body false 1000 s_empty) =
    Err (EmdexError NETWORK_ERROR) /\
  data_calls (sent (snd (emdexRequest E_401_cut search_ep search_body false 1000 s_empty))) = 2%nat.
Proof. vm_compute. split; reflexivity. Qed.

(** Claim C2, amended.  With the real transport configured, a call of
    [emdexRequest] with [isRetry = false] sends at most two data requests.
    When the first data request is answered 401, the token is cleared and
    the call continues as [emdexRequest(endpoint, body, true)]; in that retry
    any non-2xx answer, 401 included, ends the call: with [REQUEST_FAILED]
    when the error body can be read, with [NETWORK_ERROR] when reading it
    fails.  The retry sends at most one data request. *)
Theorem emdexRequest_single_retry (E : env) (ep : string) (b : list (string * jv))
  (now : Z) (apiUrl : string)
  (Hmock : USE_MOCK E = false) (Hurl : env_str (EMDEX_API_URL E) = Some apiUrl) :
  (forall s, (data_calls (sent (snd (emdexRequest E ep b false now s)))
                <= data_calls (sent s) + 2)%nat) /\
  (forall s tok s1 rb,
     getToken E now s = (Ok tok, s1) -> upstream E (length (sent s1)) = Resp 401 rb ->
     emdexRequest E ep b false now s =
     emdexRequest E ep b true now
       (token_cleared (with_sent s1 (sent s1 ++ [DataReq (apiUrl ++ ep) tok])%list))) /\
  (forall s tok s1 status rb,
     getToken E now s = (Ok tok, s1) -> upstream E (length (sent s1)) = Resp status rb ->
     ok_status status = false ->
     emdexRequest E ep b true now s =
     (Err (EmdexError (text_code rb REQUEST_FAILED)),
      with_sent s1 (sent s1 ++ [DataReq (apiUrl ++ ep) tok])%list)) /\
  (forall s, (data_calls (sent (snd (emdexRequest E ep b true now s)))
                <= data_calls (sent s) + 1)%nat).
Proof.
  assert (Hthrow : forall s', (data_calls (sent (snd (throw (A := jv) (EmdexError REQUEST_FAILED) s')))
                                <= data_calls (sent s') + 0)%nat) by (intros; simpl; lia).
  assert (Hinner : forall s', (data_calls (sent (snd (emdexAttempt E ep b true now
                                  (throw (EmdexError REQUEST_FAILED)) s')))
                                <= data_calls (sent s') + 1)%nat).
  { intros s'. pose proof (emdexAttempt_calls E ep b true now _ 0 s' Hthrow). lia. }
  assert (Hretry : forall s', (data_calls (sent (snd (emdexRequest E ep b true now s')))
                                <= data_calls (sent s') + 1)%nat).
  { intros s'. unfold emdexRequest.
    rewrite (emdexAttempt_retry_final E ep b now _ (throw (EmdexError REQUEST_FAILED)) s').
    apply Hinner. }
  split; [|split; [|split]].
  - intros s. unfold emdexRequest.
    pose proof (emdexAttempt_calls E ep b false now _ 1 s Hinner) as H. lia.
  - intros s tok s1 rb Hg Hu. unfold emdexRequest.
    rewrite (emdexAttempt_unfold E ep b false now _ s apiUrl Hmock Hurl), Hg. simpl.
    rewrite Hu. simpl. apply emdexAttempt_retry_final.
  - intros s tok s1 status rb Hg Hu Hok. unfold emdexRequest.
    rewrite (emdexAttempt_unfold E ep b true now _ s apiUrl Hmock Hurl), Hg. simpl.
    rewrite Hu, andb_false_r, Hok. reflexivity.
  - exact Hretry.
Qed.

(** Two 401 answers in a row: two logins, two data requests, then
    [REQUEST_FAILED]. *)
Lemma emdexRequest_single_retry_witness :
  USE_MOCK E_double401 = false /\ env_str (EMDEX_API_URL E_double401) = Some "https://x" /\
  (data_calls (sent (snd (emdexRequest E_double401 search_ep search_body false 1000 s_empty)))
     <= data_calls (sent s_empty) + 2)%nat /\
  emdexRequest E_double401 search_ep search_body false 1000 s_empty =
    (Err (EmdexError REQUEST_FAILED),
     mkSt (JStr "t2") (ExpNum (num_of_Z 3601000)) init
       [LoginReq "https://x/api/v1/login" "a" "b";
        DataReq ("https://x" ++ search_ep) (JStr "t1");
        LoginReq "https://x/api/v1/login" "a" "b";
        DataReq ("https://x" ++ search_ep) (JStr "t2")] JNull).
Proof.
  assert (Hm : USE_MOCK E_double401 = false) by reflexivity.
  assert (Hu : env_str (EMDEX_API_URL E_double401) = Some "https://x") by reflexivity.
  split; [exact Hm|]. split; [exact Hu|]. split.
  - exact (proj1 (emdexRequest_single_retry E_double401 search_ep search_body 1000 "https://x" Hm Hu)
                 s_empty).
  - vm_compute. reflexivity.
Defined.

(** Claim C3: a login answer with [expires_in: 0] and no truthy [expiresIn]
    is not given [expiresAt = now + 0 * 1000].  The chain
    [data.expires_in || data.expiresIn || 3600] treats [0] as absent, so the
    token gets the one-hour default, [now + 3600 * 1000], although the
    answer specified its lifetime. *)
Theorem getToken_zero_expires_in (E : env) (now : Z) (s : st) (u em p : string)
  (status : Z) (fs : list (string * jv))
  (Hf : token_fresh s now = false) (Hc : credentials E = Some (u, em, p))
  (Hu : upstream E (length (sent s)) = Resp status (BodyJson (JObj fs)))
  (Hok : ok_status status = true)
  (Ht : truthy (js_or (get_prop (JObj fs) "token") (get_prop (JObj fs) "access_token")) = true)
  (Hz : get_prop (JObj fs) "expires_in" = JNum 0)
  (Hn : truthy (get_prop (JObj fs) "expiresIn") = false) :
  fst (getToken E now s) = Ok (js_or (get_prop (JObj fs) "token") (get_prop (JObj fs) "access_token")) /\
  tokenExpiresAt (snd (getToken E now s)) = expiry_of now (JNum 3600).
Proof.
  rewrite (getToken_login E now s u em p Hf Hc). unfold login_outcome. rewrite Hu, Hok.
  cbn [negb is_nullish]. rewrite Ht. cbn [negb]. rewrite Hz.
  replace (js_or (js_or (JNum 0) (get_prop (JObj fs) "expiresIn")) (JNum 3600)) with (JNum 3600).
  - split; reflexivity.
  - unfold js_or at 2. simpl truthy. cbv iota. unfold js_or. rewrite Hn. reflexivity.
Qed.

(** A login answered with [{token: 't', expires_in: 0}] at time [1000]:
    the expiry is [1000 + 3600 * 1000], not [1000 + 0 * 1000]. *)
Lemma getToken_zero_expires_in_witness :
  token_fresh s_empty 1000 = false /\
  tokenExpiresAt (snd (getToken E_zero_expiry 1000 s_empty)) = expiry_of 1000 (JNum 3600) /\
  expiry_of 1000 (JNum 3600) = ExpNum (num_of_Z 3601000) /\
  expiry_of 1000 (JNum 3600) <> expiry_of 1000 (JNum 0).
Proof.
  assert (Hf : token_fresh s_empty 1000 = false) by reflexivity.
  split; [exact Hf|]. split.
  - exact (proj2 (getToken_zero_expires_in E_zero_expiry 1000 s_empty "https://x" "a" "b" 200
                    [("token", JStr "t"); ("expires_in", JNum 0)]
                    Hf eq_refl eq_refl eq_refl eq_refl eq_refl eq_refl)).
  - split; [vm_compute; reflexivity|]. vm_compute. discriminate.
Defined.

(** Claim C5, as stated, fails: with the configuration missing, [getToken]
    fails with [AUTH_FAILED] before its [try] block, and a stale token and
    its expiry are left in place. *)
Lemma getToken_failure_counterexample :
  getToken E_nocreds 100000 s_stale = (Err (EmdexError AUTH_FAILED), s_stale) /\
  cachedToken (snd (getToken E_nocreds 100000 s_stale)) = JStr "t0" /\
  tokenExpiresAt (snd (getToken E_nocreds 100000 s_stale)) = ExpNum (num_of_Z 1000).
Proof. vm_compute. split; [reflexivity|]. split; reflexivity. Qed.

(** Claim C5, amended.  When [getToken] fails:
    - with the configuration missing, the error is [AUTH_FAILED] and the
      state, token and expiry included, is unchanged;
    - otherwise a login was attempted, the token and expiry are cleared, and
      the error is [NETWORK_ERROR] for a transport failure, a body that
      cannot be read (that of a non-2xx answer included), a body that is not
      JSON or a [null] body, and [AUTH_FAILED] for a non-2xx answer whose
      body was read or a 2xx answer without a token. *)
Theorem getToken_failure_contract (E : env) (now : Z) (s s' : st) (e : exn)
  (Hfail : getToken E now s = (Err e, s')) :
  (credentials E = None -> e = EmdexError AUTH_FAILED /\ s' = s) /\
  (forall u em p, credentials E = Some (u, em, p) ->
     cachedToken s' = JNull /\ tokenExpiresAt s' = ExpNull /\
     match upstream E (length (sent s)) with
     | NetFail => e = EmdexError NETWORK_ERROR
     | Resp status body =>
         if negb (ok_status status) then e = EmdexError (text_code body AUTH_FAILED) else
         match body with
         | BodyJson data =>
             if is_nullish data then e = EmdexError NETWORK_ERROR else e = EmdexError AUTH_FAILED
         | _ => e = EmdexError NETWORK_ERROR
         end
     end).
Proof.
  destruct (token_fresh s now) eqn:Hf.
  { rewrite (getToken_fresh E now s Hf) in Hfail. discriminate Hfail. }
  split.
  - intros Hc. rewrite (getToken_no_credentials E now s Hf Hc) in Hfail.
    injection Hfail as He Hs. subst. auto.
  - intros u em p Hc. rewrite (getToken_login E now s u em p Hf Hc) in Hfail.
    unfold login_outcome in Hfail.
    destruct (upstream E (length (sent s))) as [|status body].
    { injection Hfail as <- <-. simpl. auto. }
    destruct (ok_status status); simpl in Hfail |- *.
    2:{ injection Hfail as <- <-. simpl. auto. }
    destruct body as [| |data].
    1,2: injection Hfail as <- <-; simpl; auto.
    destruct (is_nullish data).
    { injection Hfail as <- <-. simpl. auto. }
    destruct (truthy (js_or (get_prop data "token") (get_prop data "access_token"))); simpl in Hfail.
    + discriminate Hfail.
    + injection Hfail as <- <-. simpl. auto.
Qed.

(** A rejected login clears a stale token; with an unreadable body the
    rejection becomes [NETWORK_ERROR]. *)
Lemma getToken_failure_contract_witness :
  getToken E_reject 100000 s_stale =
    (Err (EmdexError AUTH_FAILED), snd (getToken E_reject 100000 s_stale)) /\
  cachedToken (snd (getToken E_reject 100000 s_stale)) = JNull /\
  tokenExpiresAt (snd (getToken E_reject 100000 s_stale)) = ExpNull /\
  fst (getToken E_reject_cut 100000 s_stale) = Err (EmdexError NETWORK_ERROR).
Proof.
  assert (H : getToken E_reject 100000 s_stale =
                (Err (EmdexError AUTH_FAILED), snd (getToken E_reject 100000 s_stale)))
    by (vm_compute; reflexivity).
  split; [exact H|].
  destruct (proj2 (getToken_failure_contract E_reject 100000 s_stale _ _ H) "https://x" "a" "b" eq_refl)
    as [H1 [H2 _]].
  assert (Hc : getToken E_reject_cut 100000 s_stale =
                 (Err (EmdexError NETWORK_ERROR), snd (getToken E_reject_cut 100000 s_stale)))
    by (vm_compute; reflexivity).
  split; [exact H1|]. split; [exact H2|]. rewrite Hc. reflexivity.
Defined.

(** Claim C6, as stated, fails: a successful answer that carries an
    [error] field whose value is falsy ([error: false]) is stored in the
    cache, since the code tests [!result.error], not the field's absence. *)
Lemma cachedEmdexRequest_counterexample :
  get_prop error_payload "error" = JBool false /\
  fst (cachedEmdexRequest E_error_field search_ep search_body 3600 1000 s_empty) =
    Ok (annotate error_payload (cache_meta false (cacheKeyOf search_ep search_body) 3600)) /\
  map_get (store (cache (snd (cachedEmdexRequest E_error_field search_ep search_body 3600 1000 s_empty))))
    (cacheKeyOf search_ep search_body) = Some (mkItem error_payload 1000 3601000 3600).
Proof. vm_compute. split; [reflexivity|]. split; reflexivity. Qed.

(** Claim C6, amended.  With [key] the cache key of the endpoint and body,
    the call first runs [get key] on the cache.
    - On a hit (a truthy payload [d]), it returns [d] annotated with
      [{hit: true, key, ttl: getTTL(key)}]; no request is sent and the token
      is untouched.
    - On a miss it runs [emdexRequest(endpoint, body, false)].  An error
      propagates, with the cache as the lookup left it.  A result [v] is
      stored under [key] with [ttlSeconds] exactly when [v] is truthy and
      [v.error] is falsy (absent, [false], [0], [null], ...).  The call then
      returns [v] annotated with [{hit: false, key, ttl: ttlSeconds}]. *)
Theorem cachedEmdexRequest_contract (E : env) (ep : string) (b : list (string * jv))
  (ttlSeconds now : Z) (s : st) :
  let key := cacheKeyOf ep b in
  let d := fst (CacheService.get (cache s) key now) in
  let c1 := snd (CacheService.get (cache s) key now) in
  let s1 := mkSt (cachedToken s) (tokenExpiresAt s) c1 (sent s) (mockData s) in
  (truthy d = true ->
     cachedEmdexRequest E ep b ttlSeconds now s =
       (Ok (annotate d (cache_meta true key (fst (getTTL c1 key now)))), s1)) /\
  (truthy d = false ->
     match emdexRequest E ep b false now s1 with
     | (Err e, s2) => cachedEmdexRequest E ep b ttlSeconds now s = (Err e, s2) /\ cache s2 = c1
     | (Ok v, s2) =>
         cachedEmdexRequest E ep b ttlSeconds now s =
           (Ok (annotate v (cache_meta false key ttlSeconds)),
            mkSt (cachedToken s2) (tokenExpiresAt s2)
              (if truthy v && negb (truthy (get_prop v "error"))
               then CacheService.set c1 key v ttlSeconds now else c1)
              (sent s2) (mockData s2))
     end).
Proof.
  cbv zeta. unfold cachedEmdexRequest, bind, get_st, set_cache, ret.
  destruct (CacheService.get (cache s) (cacheKeyOf ep b) now) as [d c1]. simpl.
  split.
  - intros Ht. rewrite Ht. reflexivity.
  - intros Ht. rewrite Ht.
    pose proof (emdexRequest_cache E ep b false now
                  (mkSt (cachedToken s) (tokenExpiresAt s) c1 (sent s) (mockData s))) as Hc.
    destruct (emdexRequest E ep b false now (mkSt (cachedToken s) (tokenExpiresAt s) c1 (sent s) (mockData s)))
      as [[v|e] s2].
    + simpl in Hc. destruct (truthy v && negb (truthy (get_prop v "error"))).
      * rewrite Hc. reflexivity.
      * destruct s2. simpl in Hc |- *. subst. reflexivity.
    + simpl in Hc. split; [reflexivity|exact Hc].
Qed.

(** A miss on an empty cache, the answer carrying [error: false]. *)
Lemma cachedEmdexRequest_contract_witness :
  truthy (fst (CacheService.get (cache s_empty) (cacheKeyOf search_ep search_body) 1000)) = false /\
  fst (cachedEmdexRequest E_error_field search_ep search_body 3600 1000 s_empty) =
    Ok (annotate error_payload (cache_meta false (cacheKeyOf search_ep search_body) 3600)).
Proof.
  assert (Hm : truthy (fst (CacheService.get (cache s_empty) (cacheKeyOf search_ep search_body) 1000))
               = false) by (vm_compute; reflexivity).
  split; [exact Hm|].
  pose proof (proj2 (cachedEmdexRequest_contract E_error_field search_ep search_body 3600 1000 s_empty)
                Hm) as H.
  match type of H with
  | context [emdexRequest ?E' ?ep' ?b' ?r' ?n' ?s'] =>
      let Er := fresh "Er" in
      assert (Er : emdexRequest E' ep' b' r' n' s' =
                     (Ok error_payload, snd (emdexRequest E' ep' b' r' n' s')))
        by (vm_compute; reflexivity);
      rewrite Er in H
  end.
  rewrite H. reflexivity.
Defined.

End EmdexClaims.

(** ** Further lemmas on the cache, the strings and the transformer *)

Module ExtraFacts.
Import CacheService CacheFacts Transformer ExtraDefs.

(** *** The [Map] operations *)

Lemma map_get_set_same (m : list (string * item)) (k : string) (v : item) :
  map_get (map_set m k v) k = Some v.
Proof.
  induction m as [|[k' it] m IH]; simpl; [now rewrite String.eqb_refl|].
  destruct (String.eqb_spec k' k) as [->|Hne]; simpl.
  - now rewrite String.eqb_refl.
  - apply String.eqb_neq in Hne. now rewrite Hne.
Qed.

Lemma map_get_set_other (m : list (string * item)) (k k' : string) (v : item) :
  k' <> k -> map_get (map_set m k v) k' = map_get m k'.
Proof.
  intros Hne. induction m as [|[k0 it] m IH]; simpl.
  - destruct (String.eqb_spec k k'); [congruence|reflexivity].
  - destruct (String.eqb_spec k0 k) as [->|]; simpl.
    + destruct (String.eqb_spec k k'); [congruence|reflexivity].
    + destruct (String.eqb k0 k'); [reflexivity|exact IH].
Qed.

Lemma map_set_length_exact (m : list (string * item)) (k : string) (v : item) :
  length (map_set m k v) =
  (length m + match map_get m k with Some _ => 0 | None => 1 end)%nat.
Proof.
  induction m as [|[k0 it] m IH]; simpl; [reflexivity|].
  destruct (String.eqb k0 k); simpl; [lia|]. rewrite IH. lia.
Qed.

Lemma map_get_delete_other (m : list (string * item)) (k k' : string) :
  k' <> k -> map_get (snd (map_delete m k)) k' = map_get m k'.
Proof.
  intros Hne. induction m as [|[k0 it] m IH]; simpl; [reflexivity|].
  destruct (String.eqb_spec k0 k) as [->|]; simpl.
  - destruct (String.eqb_spec k k'); [congruence|reflexivity].
  - destruct (map_delete m k) as [b r] eqn:Hd. simpl in *.
    destruct (String.eqb k0 k'); [reflexivity|exact IH].
Qed.

Lemma map_get_filter_key (m : list (string * item)) (k : string) :
  map_get (filter (fun p => negb (String.eqb (fst p) k)) m) k = None.
Proof.
  induction m as [|[k0 it] m IH]; simpl; [reflexivity|].
  destruct (String.eqb k0 k) eqn:He; simpl; [exact IH|]. rewrite He. exact IH.
Qed.

Lemma map_get_delete_same (m : list (string * item)) (k : string) :
  NoDup (keys m) -> map_get (snd (map_delete m k)) k = None.
Proof. intros Hnd. rewrite (map_delete_filter m k Hnd). apply map_get_filter_key. Qed.

Lemma map_delete_found (m : list (string * item)) (k : string) :
  fst (map_delete m k) = true <-> map_get m k <> None.
Proof.
  induction m as [|[k0 it] m IH]; simpl; [split; [discriminate|congruence]|].
  destruct (String.eqb k0 k); simpl; [split; [congruence|reflexivity]|].
  destruct (map_delete m k) as [b r]. exact IH.
Qed.

Lemma set_map_get_same (c : cstate) (k : string) (d : jv) (t now : Z) :
  map_get (store (set c k d t now)) k = Some (mkItem d now (now + t * 1000) t).
Proof. unfold set. simpl. apply map_get_set_same. Qed.

(** [Math.ceil(remaining / 1000)] lies in [1 .. ceil(bound / 1000)]. *)
Lemma ceil_div_bounds (r t : Z) :
  0 < r -> r <= t * 1000 -> 1 <= (r + 999) / 1000 <= t.
Proof.
  intros H1 H2. pose proof (Z.div_mod (r + 999) 1000) as Hd.
  pose proof (Z.mod_pos_bound (r + 999) 1000) as Hb.
  set (q := (r + 999) / 1000) in *. set (m := (r + 999) mod 1000) in *. lia.
Qed.

(** *** Strings *)

Lemma lower_char_idem (c : ascii) : lower_char (lower_char c) = lower_char c.
Proof. destruct c as [[] [] [] [] [] [] [] []]; reflexivity. Qed.

Lemma is_ws_lower (c : ascii) : is_ws (lower_char c) = is_ws c.
Proof. destruct c as [[] [] [] [] [] [] [] []]; reflexivity. Qed.

Lemma toLowerCase_list (s : string) :
  list_ascii_of_string (toLowerCase s) = map lower_char (list_ascii_of_string s).
Proof. induction s as [|c s IH]; simpl; [reflexivity|]. now rewrite IH. Qed.

Lemma toLowerCase_of_list (l : list ascii) :
  toLowerCase (string_of_list_ascii l) = string_of_list_ascii (map lower_char l).
Proof. induction l as [|c l IH]; simpl; [reflexivity|]. now rewrite IH. Qed.

Lemma toLowerCase_idem (s : string) : toLowerCase (toLowerCase s) = toLowerCase s.
Proof. induction s as [|c s IH]; simpl; [reflexivity|]. now rewrite lower_char_idem, IH. Qed.

Lemma drop_ws_map_lower (l : list ascii) :
  drop_ws (map lower_char l) = map lower_char (drop_ws l).
Proof.
  induction l as [|c l IH]; simpl; [reflexivity|].
  rewrite is_ws_lower. destruct (is_ws c); [exact IH|reflexivity].
Qed.

Lemma trim_toLowerCase (s : string) : trim (toLowerCase s) = toLowerCase (trim s).
Proof.
  unfold trim. rewrite toLowerCase_list, toLowerCase_of_list.
  rewrite drop_ws_map_lower, <- map_rev, drop_ws_map_lower, <- map_rev. reflexivity.
Qed.

Lemma drop_ws_split (l : list ascii) :
  exists pre, l = pre ++ drop_ws l.
Proof.
  induction l as [|c l IH]; simpl; [now exists []|].
  destruct (is_ws c); [|now exists []].
  destruct IH as [pre Hp]. exists (c :: pre). simpl. now rewrite <- Hp.
Qed.

Lemma drop_ws_head (l : list ascii) :
  drop_ws l = [] \/ exists c l', drop_ws l = c :: l' /\ is_ws c = false.
Proof.
  induction l as [|c l IH]; simpl; [now left|].
  destruct (is_ws c) eqn:Hc; [exact IH|]. right. now exists c, l.
Qed.

Lemma drop_ws_fix (l : list ascii) :
  (l = [] \/ exists c l', l = c :: l' /\ is_ws c = false) -> drop_ws l = l.
Proof. intros [->|[c [l' [-> Hc]]]]; simpl; [reflexivity|]. now rewrite Hc. Qed.

Lemma drop_ws_idem (l : list ascii) : drop_ws (drop_ws l) = drop_ws l.
Proof. apply drop_ws_fix, drop_ws_head. Qed.

Lemma drop_ws_incl (l : list ascii) (c : ascii) : In c (drop_ws l) -> In c l.
Proof.
  destruct (drop_ws_split l) as [pre Hp]. intros H. rewrite Hp. apply in_or_app. now right.
Qed.

Lemma trim_idem (s : string) : trim (trim s) = trim s.
Proof.
  unfold trim. rewrite list_ascii_of_string_of_list_ascii. f_equal.
  set (l1 := drop_ws (list_ascii_of_string s)).
  set (y := rev (drop_ws (rev l1))).
  assert (Hy : drop_ws y = y).
  { destruct (drop_ws_split (rev l1)) as [pre Hp].
    assert (Hl1 : l1 = y ++ rev pre).
    { unfold y. rewrite <- (rev_involutive l1) at 1. rewrite Hp at 1.
      now rewrite rev_app_distr. }
    apply drop_ws_fix. destruct y as [|c y'] eqn:Ey; [now left|right].
    exists c, y'. split; [reflexivity|].
    destruct (drop_ws_head (list_ascii_of_string s)) as [H0|[c0 [l0 [H0 Hc0]]]].
    - fold l1 in H0. rewrite H0 in Hl1. discriminate Hl1.
    - fold l1 in H0. rewrite H0 in Hl1. simpl in Hl1. injection Hl1 as -> _. exact Hc0. }
  rewrite Hy. unfold y. rewrite rev_involutive, drop_ws_idem. reflexivity.
Qed.

Lemma trim_incl (s : string) (c : ascii) :
  In c (list_ascii_of_string (trim s)) -> In c (list_ascii_of_string s).
Proof.
  unfold trim. rewrite list_ascii_of_string_of_list_ascii.
  intros H. apply in_rev in H. apply drop_ws_incl in H. apply in_rev in H.
  apply drop_ws_incl in H. exact H.
Qed.

Lemma list_ascii_app (a b : string) :
  list_ascii_of_string (a ++ b)%string = list_ascii_of_string a ++ list_ascii_of_string b.
Proof. induction a as [|c a IH]; simpl; [reflexivity|]. now rewrite IH. Qed.

Lemma string_length_app (a b : string) :
  String.length (a ++ b)%string = (String.length a + String.length b)%nat.
Proof. induction a as [|c a IH]; simpl; [reflexivity|]. now rewrite IH. Qed.

Lemma prefix_empty (s : string) : String.prefix ""%string s = true.
Proof. destruct s; reflexivity. Qed.

Lemma prefix_app (p r : string) : String.prefix p (p ++ r)%string = true.
Proof.
  induction p as [|a p IH]; [apply prefix_empty|]. simpl.
  destruct (ascii_dec a a) as [_|n]; [exact IH|congruence].
Qed.

Lemma prefix_inv (p s : string) : String.prefix p s = true -> exists r, s = (p ++ r)%string.
Proof.
  revert s. induction p as [|a p IH]; intros s H; [now exists s|].
  destruct s as [|b s]; simpl in H; [discriminate|].
  destruct (ascii_dec a b) as [->|]; [|discriminate].
  destruct (IH s H) as [r ->]. now exists r.
Qed.

Lemma index_app (p r : string) : p <> ""%string -> String.index 0 p (p ++ r)%string = Some 0%nat.
Proof.
  intros Hp. destruct p as [|a p']; [congruence|].
  pose proof (prefix_app (String a p') r) as H.
  change (String a p' ++ r)%string with (String a (p' ++ r)%string) in *.
  unfold String.index. rewrite H. reflexivity.
Qed.

Lemma substring_skip (p r : string) (m : nat) :
  substring (String.length p) m (p ++ r)%string = substring 0 m r.
Proof. induction p as [|a p IH]; simpl; [reflexivity|]. exact IH. Qed.

Lemma substring_all (m : nat) (s : string) :
  (String.length s <= m)%nat -> substring 0 m s = s.
Proof.
  revert m. induction s as [|c s IH]; intros [|m] H; simpl in *; try reflexivity; [lia|].
  rewrite IH by lia. reflexivity.
Qed.

Lemma replace_first_app (p r : string) : p <> ""%string -> replace_first p (p ++ r)%string = r.
Proof.
  intros Hp. unfold replace_first. rewrite index_app by exact Hp.
  replace (substring 0 0 (p ++ r)%string) with ""%string by (destruct (p ++ r)%string; reflexivity).
  simpl. rewrite substring_skip. apply substring_all. rewrite string_length_app. lia.
Qed.

(** *** [split(/[,;\n]+/)] *)

Lemma split_sep_nosep (l cur : list ascii) (b : bool) :
  nosep cur -> Forall nosep (split_sep l cur b).
Proof.
  revert cur b. induction l as [|c l IH]; intros cur b Hc; simpl; [now constructor|].
  destruct (is_sep c) eqn:Hs.
  - destruct b; [now apply IH|]. constructor; [exact Hc|]. apply IH. constructor.
  - apply IH. apply Forall_app. split; [exact Hc|]. now constructor.
Qed.

Lemma split_app_nosep (l rest cur : list ascii) (b : bool) :
  nosep l -> l <> [] -> split_sep (l ++ rest) cur b = split_sep rest (cur ++ l) false.
Proof.
  revert cur b. induction l as [|c l IH]; intros cur b Hl Hne; [congruence|].
  inversion Hl as [|? ? Hc Hl']; subst. simpl. rewrite Hc.
  destruct l as [|c' l'].
  - reflexivity.
  - rewrite IH by (assumption || discriminate). now rewrite <- app_assoc.
Qed.

Lemma concat_list_head (x : string) (xs : list string) :
  exists rest, list_ascii_of_string (String.concat "," (x :: xs)) = list_ascii_of_string x ++ rest.
Proof.
  destruct xs as [|y ys].
  - exists []. simpl. now rewrite app_nil_r.
  - exists (list_ascii_of_string ("," ++ String.concat "," (y :: ys))%string).
    change (String.concat "," (x :: y :: ys)) with (x ++ "," ++ String.concat "," (y :: ys))%string.
    rewrite !list_ascii_app. reflexivity.
Qed.

Lemma split_join (items : list string) :
  items <> [] ->
  Forall (fun x => list_ascii_of_string x <> [] /\ nosep (list_ascii_of_string x)) items ->
  split_sep (list_ascii_of_string (String.concat "," items)) [] false =
  map list_ascii_of_string items.
Proof.
  induction items as [|x xs IH]; intros Hne Hall; [congruence|].
  inversion Hall as [|? ? [Hx Hsx] Hxs]; subst.
  destruct xs as [|y ys].
  - simpl String.concat. rewrite <- (app_nil_r (list_ascii_of_string x)).
    rewrite split_app_nosep by assumption. simpl; try rewrite app_nil_r; reflexivity.
  - change (String.concat "," (x :: y :: ys)) with (x ++ "," ++ String.concat "," (y :: ys))%string.
    rewrite !list_ascii_app. rewrite split_app_nosep by assumption.
    inversion Hxs as [|? ? [Hy Hsy] Hys]; subst.
    destruct (concat_list_head y ys) as [rest Hr].
    assert (Hsw : split_sep (list_ascii_of_string (String.concat "," (y :: ys))) [] true =
                  split_sep (list_ascii_of_string (String.concat "," (y :: ys))) [] false).
    { rewrite Hr. destruct (list_ascii_of_string y) as [|c yl] eqn:Ey; [congruence|].
      inversion Hsy as [|? ? Hc _]; subst. simpl. now rewrite Hc. }
    change (list_ascii_of_string ",") with [","%char].
    change ([] ++ list_ascii_of_string x) with (list_ascii_of_string x).
    change ([","%char] ++ list_ascii_of_string (String.concat "," (y :: ys)))
      with (","%char :: list_ascii_of_string (String.concat "," (y :: ys))).
    cbn [split_sep is_sep]. rewrite Hsw, IH by (discriminate || assumption). reflexivity.
Qed.

(** *** [removeDuplicates] *)

Lemma svz_sym (a b : jv) : same_value_zero a b = same_value_zero b a.
Proof.
  destruct a, b; simpl; try reflexivity.
  - destruct b, b0; reflexivity.
  - apply Z.eqb_sym.
  - apply String.eqb_sym.
Qed.

Lemma svz_refl (a : jv) : is_prim a = true -> same_value_zero a a = true.
Proof.
  destruct a; simpl; intros H; try discriminate; try reflexivity.
  - destruct b; reflexivity.
  - apply Z.eqb_refl.
  - apply String.eqb_refl.
Qed.

Lemma dedup_none (seen drugs : list jv) :
  dedup seen drugs = None <-> exists d, In d drugs /\ nullish d = true.
Proof.
  revert seen. induction drugs as [|d ds IH]; intros seen; simpl.
  - split; [discriminate|]. intros [? [[] _]].
  - destruct (nullish d) eqn:Hn.
    + split; [intros _; exists d; auto|reflexivity].
    + destruct (existsb (same_value_zero (dedup_key d)) seen).
      * rewrite IH. split; intros [x [Hx Hnx]]; exists x; [auto|].
        destruct Hx as [->|Hx]; [congruence|auto].
      * destruct (dedup (dedup_key d :: seen) ds) as [r|] eqn:Hr; simpl.
        -- split; [discriminate|]. intros [x [[->|Hx] Hnx]]; [congruence|].
           assert (Hnone : dedup (dedup_key d :: seen) ds = None) by (apply IH; eauto).
           congruence.
        -- split; [intros _|reflexivity]. apply IH in Hr. destruct Hr as [x [Hx Hnx]]. eauto.
Qed.

Lemma dedup_spec (seen drugs r : list jv) :
  dedup seen drugs = Some r ->
  subseq r drugs /\
  ForallOrdPairs (fun a b => same_value_zero (dedup_key a) (dedup_key b) = false) r /\
  Forall (fun d => existsb (same_value_zero (dedup_key d)) seen = false) r /\
  (forall d, In d drugs -> is_prim (dedup_key d) = true ->
     existsb (same_value_zero (dedup_key d)) seen = true \/
     exists d', In d' r /\ same_value_zero (dedup_key d) (dedup_key d') = true).
Proof.
  revert seen r. induction drugs as [|d ds IH]; intros seen r H; simpl in H.
  - injection H as <-. split; [constructor|]. split; [constructor|]. split; [constructor|]. intros ? [].
  - destruct (nullish d) eqn:Hn; [discriminate|].
    destruct (existsb (same_value_zero (dedup_key d)) seen) eqn:Hseen.
    + destruct (IH seen r H) as [Hsub [Hpairs [Hfresh Hcomp]]].
      repeat split; [now constructor|exact Hpairs|exact Hfresh|].
      intros x [<-|Hx] Hp; [now left|]. now apply Hcomp.
    + destruct (dedup (dedup_key d :: seen) ds) as [r'|] eqn:Hr; simpl in H; [|discriminate].
      injection H as <-.
      destruct (IH _ _ Hr) as [Hsub [Hpairs [Hfresh Hcomp]]].
      repeat split.
      * now constructor.
      * constructor; [|exact Hpairs].
        eapply Forall_impl; [|exact Hfresh]. intros x Hx. simpl in Hx.
        apply orb_false_iff in Hx. rewrite svz_sym. apply Hx.
      * constructor; [exact Hseen|].
        eapply Forall_impl; [|exact Hfresh]. intros x Hx. simpl in Hx.
        apply orb_false_iff in Hx. apply Hx.
      * intros x [<-|Hx] Hp.
        -- right. exists d. split; [now left|]. now apply svz_refl.
        -- destruct (Hcomp x Hx Hp) as [Hs|[y [Hy Hxy]]].
           ++ simpl in Hs. apply orb_true_iff in Hs. destruct Hs as [Hs|Hs]; [|now left].
              right. exists d. split; [now left|exact Hs].
           ++ right. exists y. split; [now right|exact Hxy].
Qed.

Lemma dedup_distinct (seen r : list jv) :
  Forall (fun d => nullish d = false) r ->
  ForallOrdPairs (fun a b => same_value_zero (dedup_key a) (dedup_key b) = false) r ->
  Forall (fun d => existsb (same_value_zero (dedup_key d)) seen = false) r ->
  dedup seen r = Some r.
Proof.
  revert seen. induction r as [|d r IH]; intros seen Hn Hp Hf; simpl; [reflexivity|].
  inversion Hn as [|? ? Hnd Hnr]; subst. inversion Hp as [|? ? Hd Hpr]; subst.
  inversion Hf as [|? ? Hfd Hfr]; subst.
  rewrite Hnd, Hfd. rewrite IH; [reflexivity|exact Hnr|exact Hpr|].
  apply Forall_forall. intros x Hx. simpl. apply orb_false_iff. split.
  - rewrite svz_sym. exact (proj1 (Forall_forall _ _) Hd x Hx).
  - exact (proj1 (Forall_forall _ _) Hfr x Hx).
Qed.

Lemma subseq_In {A} (l l' : list A) (x : A) : subseq l l' -> In x l -> In x l'.
Proof.
  intros H. induction H; simpl; [tauto| |]; intros Hx.
  - destruct Hx; [now left|right; auto].
  - right. auto.
Qed.

(** *** The transformers *)

Lemma is_null_brand (t : string) (x : jv) :
  is_null (transformEmdexBrand t x) = negb (truthy x).
Proof. unfold transformEmdexBrand. destruct (truthy x); reflexivity. Qed.

Lemma is_null_generic (t : string) (x : jv) :
  is_null (transformEmdexGeneric t x) = negb (truthy x).
Proof. unfold transformEmdexGeneric. destruct (truthy x); reflexivity. Qed.

Lemma map_idx_In (f : string -> jv -> jv) (tempIds : nat -> string) (i : nat) (l : list jv) (d : jv) :
  In d (map_idx f tempIds i l) -> exists t x, d = f t x.
Proof.
  revert i. induction l as [|x l IH]; intros i H; simpl in H; [contradiction|].
  destruct H as [<-|H]; [eauto|]. eapply IH; exact H.
Qed.

Lemma brand_prefix_generic (x : string) :
  String.prefix "emdex_brand_" ("emdex_generic_" ++ x) = false.
Proof. reflexivity. Qed.

Lemma parse_brand (x : string) : parseAppDrugId (JStr ("emdex_brand_" ++ x)) = Some ("brand"%string, x).
Proof.
  unfold parseAppDrugId. cbv beta iota.
  change (negb (truthy (JStr ("emdex_brand_" ++ x)))) with false. cbv iota.
  rewrite prefix_app, replace_first_app by discriminate. reflexivity.
Qed.

Lemma parse_generic (x : string) :
  parseAppDrugId (JStr ("emdex_generic_" ++ x)) = Some ("generic"%string, x).
Proof.
  unfold parseAppDrugId. cbv beta iota.
  change (negb (truthy (JStr ("emdex_generic_" ++ x)))) with false. cbv iota.
  rewrite brand_prefix_generic, prefix_app, replace_first_app by discriminate. reflexivity.
Qed.

Lemma map_delete_length_exact (m : list (string * item)) (k : string) :
  (length (snd (map_delete m k)) + (if fst (map_delete m k) then 1 else 0))%nat = length m.
Proof.
  induction m as [|[k' it] m IH]; simpl; [reflexivity|].
  destruct (String.eqb k' k); [simpl; lia|].
  destruct (map_delete m k) as [b r]. simpl in *. lia.
Qed.

Lemma del_eq (c : cstate) (k : string) :
  del c k = (fst (map_delete (store c) k), with_store c (snd (map_delete (store c) k))).
Proof. unfold del. destruct (map_delete (store c) k); reflexivity. Qed.

Lemma set_get_before_expiry (c : cstate) (k : string) (d : jv) (t now now' : Z) :
  now' <= now + t * 1000 ->
  get (set c k d t now) k now' =
    (d, mkC (store (set c k d t now)) (incr_hits (stats (set c k d t now)))).
Proof.
  intros H. unfold get at 1. rewrite set_map_get_same. cbn [expiresAt data].
  destruct (Z.ltb_spec (now + t * 1000) now'); [lia|reflexivity].
Qed.

Lemma prop_lookup_map_norm (params : list (string * jv)) (k : string) :
  prop_lookup (map (fun p => (fst p, norm_value (snd p))) params) k =
  norm_value (prop_lookup params k).
Proof.
  induction params as [|[k' v] ps IH]; simpl; [reflexivity|].
  destruct (String.eqb k' k); [reflexivity|exact IH].
Qed.

Lemma norm_string_idem (s : string) :
  trim (toLowerCase (trim (toLowerCase s))) = trim (toLowerCase s).
Proof.
  rewrite (trim_toLowerCase (trim (toLowerCase s))), trim_idem.
  rewrite trim_toLowerCase, toLowerCase_idem. reflexivity.
Qed.

Lemma normalize_part_norm (params : list (string * jv)) (key : string) :
  normalize_part (map (fun p => (fst p, norm_value (snd p))) params) key =
  normalize_part params key.
Proof.
  unfold normalize_part. rewrite prop_lookup_map_norm.
  destruct (prop_lookup params key); try reflexivity.
  simpl. rewrite norm_string_idem. reflexivity.
Qed.

(** *** The transformers, continued *)

Lemma map_filter_In (f : string -> jv -> jv) (tempIds : nat -> string) (v : jv)
  (ds : list jv) (d : jv) :
  map_filter f tempIds v = Some ds -> In d ds ->
  exists t x, d = f t x /\ is_null (f t x) = false.
Proof.
  destruct v; simpl; try discriminate. intros H. injection H as <-. intros Hin.
  apply filter_In in Hin as [Hin Hn]. destruct (map_idx_In _ _ _ _ _ Hin) as [t [x ->]].
  exists t, x. split; [reflexivity|]. destruct (is_null (f t x)); [discriminate|reflexivity].
Qed.

Lemma brand_results_In (tempIds : nat -> string) (v : jv) (ds : list jv) (d : jv) :
  transformBrandResults tempIds v = Some ds -> In d ds ->
  exists t x, truthy x = true /\ d = transformEmdexBrand t x.
Proof.
  unfold transformBrandResults. destruct (unwrap_results _ v) as [arr|].
  - intros H Hin. destruct (map_filter_In _ _ _ _ _ H Hin) as (t & x & -> & Hn).
    rewrite is_null_brand in Hn. exists t, x.
    split; [destruct (truthy x); [reflexivity|discriminate]|reflexivity].
  - intros H. injection H as <-. intros [].
Qed.

Lemma generic_results_In (tempIds : nat -> string) (v : jv) (ds : list jv) (d : jv) :
  transformGenericResults tempIds v = Some ds -> In d ds ->
  exists t x, truthy x = true /\ d = transformEmdexGeneric t x.
Proof.
  unfold transformGenericResults. destruct (unwrap_results _ v) as [arr|].
  - intros H Hin. destruct (map_filter_In _ _ _ _ _ H Hin) as (t & x & -> & Hn).
    rewrite is_null_generic in Hn. exists t, x.
    split; [destruct (truthy x); [reflexivity|discriminate]|reflexivity].
  - intros H. injection H as <-. intros [].
Qed.

Lemma brand_shape (t : string) (x : jv) :
  truthy x = true ->
  get_prop (transformEmdexBrand t x) "type" = JStr "brand" /\
  get_prop (transformEmdexBrand t x) "source" = JStr "emdex" /\
  get_prop (transformEmdexBrand t x) "id" =
    JStr ("emdex_brand_" ++ to_js_string (js_or (js_or (get_prop x "id") (get_prop x "brand_id")) (JStr t))) /\
  get_prop (transformEmdexBrand t x) "raw_data" = x /\
  nullish (transformEmdexBrand t x) = false.
Proof.
  intros H. unfold transformEmdexBrand. rewrite H. repeat split; reflexivity.
Qed.

Lemma generic_shape (t : string) (x : jv) :
  truthy x = true ->
  get_prop (transformEmdexGeneric t x) "type" = JStr "generic" /\
  get_prop (transformEmdexGeneric t x) "source" = JStr "emdex" /\
  get_prop (transformEmdexGeneric t x) "id" =
    JStr ("emdex_generic_" ++ to_js_string (js_or (js_or (get_prop x "id") (get_prop x "generic_id")) (JStr t))) /\
  get_prop (transformEmdexGeneric t x) "raw_data" = x /\
  nullish (transformEmdexGeneric t x) = false.
Proof.
  intros H. unfold transformEmdexGeneric. rewrite H. repeat split; reflexivity.
Qed.

Lemma map_idx_raw (f : string -> jv -> jv) (tempIds : nat -> string) (i : nat) (l : list jv) :
  (forall t x, is_null (f t x) = negb (truthy x)) ->
  (forall t x, truthy x = true -> get_prop (f t x) "raw_data" = x) ->
  map (fun d => get_prop d "raw_data") (filter (fun d => negb (is_null d)) (map_idx f tempIds i l)) =
  filter truthy l.
Proof.
  intros Hf Hr. revert i. induction l as [|x l IH]; intros i; simpl; [reflexivity|].
  rewrite Hf, negb_involutive. destruct (truthy x) eqn:Hx; simpl.
  - rewrite Hr by exact Hx. rewrite IH. reflexivity.
  - apply IH.
Qed.

Lemma dedup_app (seen l1 l2 r : list jv) :
  dedup seen (l1 ++ l2) = Some r ->
  exists r1 r2 seen', dedup seen l1 = Some r1 /\ dedup seen' l2 = Some r2 /\ r = r1 ++ r2.
Proof.
  revert seen r. induction l1 as [|d l1 IH]; intros seen r H; simpl in H.
  - exists [], r, seen. auto.
  - simpl. destruct (nullish d); [discriminate|].
    destruct (existsb (same_value_zero (dedup_key d)) seen).
    + apply IH, H.
    + destruct (dedup (dedup_key d :: seen) (l1 ++ l2)) as [r'|] eqn:Hr; simpl in H; [|discriminate].
      injection H as <-. destruct (IH _ _ Hr) as (r1 & r2 & seen' & H1 & H2 & ->).
      exists (d :: r1), r2, seen'. rewrite H1. auto.
Qed.

Lemma results_not_nullish (t1 t2 : nat -> string) (v1 v2 : jv) (ds1 ds2 : list jv) :
  transformBrandResults t1 v1 = Some ds1 -> transformGenericResults t2 v2 = Some ds2 ->
  forall d, In d (ds1 ++ ds2) -> nullish d = false.
Proof.
  intros H1 H2 d Hd. apply in_app_or in Hd as [Hd|Hd].
  - destruct (brand_results_In _ _ _ _ H1 Hd) as (t & x & Hx & ->). apply (brand_shape t x Hx).
  - destruct (generic_results_In _ _ _ _ H2 Hd) as (t & x & Hx & ->). apply (generic_shape t x Hx).
Qed.

Lemma parseToArray_str_In (s : string) (x : jv) :
  In x (parseToArray (JStr s)) ->
  exists y, x = JStr y /\ y <> ""%string /\ trim y = y /\ nosep (list_ascii_of_string y).
Proof.
  unfold parseToArray. destruct (negb (truthy (JStr s))); [intros []|].
  intros H. apply in_map_iff in H as [y [<- Hy]]. apply filter_In in Hy as [Hy Hlen].
  apply in_map_iff in Hy as [piece [<- Hp]].
  exists (trim (string_of_list_ascii piece)). split; [reflexivity|]. split.
  { intros E. rewrite E in Hlen. discriminate. }
  split; [apply trim_idem|].
  unfold nosep. apply Forall_forall. intros c Hc. apply trim_incl in Hc.
  rewrite list_ascii_of_string_of_list_ascii in Hc.
  pose proof (split_sep_nosep (list_ascii_of_string s) [] false (Forall_nil _)) as Hall.
  rewrite Forall_forall in Hall. specialize (Hall piece Hp).
  unfold nosep in Hall. rewrite Forall_forall in Hall. exact (Hall c Hc).
Qed.

Lemma concat_comma_nonempty (x : string) (xs : list string) :
  x <> ""%string -> String.concat "," (x :: xs) <> ""%string.
Proof.
  intros Hx E. destruct (concat_list_head x xs) as [rest Hr]. rewrite E in Hr.
  destruct x as [|c x']; [congruence|]. discriminate Hr.
Qed.

End ExtraFacts.

Module EmdexExtraFacts.
Import CacheService Emdex EmdexFacts.

Lemma login_outcome_sent (r : response) (now : Z) (s : st) :
  sent (snd (login_outcome r now s)) = sent s.
Proof.
  unfold login_outcome.
  destruct r as [|status [| |data]]; try reflexivity;
  repeat match goal with
         | |- context [if ?b then _ else _] => destruct b
         end; reflexivity.
Qed.

Lemma login_outcome_err (r : response) (now : Z) (s s' : st) (e : exn) :
  login_outcome r now s = (Err e, s') -> exists c, e = EmdexError c.
Proof.
  unfold login_outcome.
  destruct r as [|status [| |data]];
  repeat match goal with
         | |- context [if ?b then _ else _] => destruct b
         end; intros H; injection H; intros; subst; eauto; discriminate.
Qed.

Lemma getToken_err (E : env) (now : Z) (s s' : st) (e : exn) :
  getToken E now s = (Err e, s') -> exists c, e = EmdexError c.
Proof.
  destruct (token_fresh s now) eqn:Hf.
  - rewrite (getToken_fresh E now s Hf). discriminate.
  - destruct (credentials E) as [[[u em] p]|] eqn:Hc.
    + rewrite (getToken_login E now s u em p Hf Hc). apply login_outcome_err.
    + rewrite (getToken_no_credentials E now s Hf Hc). intros H. injection H; intros; subst. eauto.
Qed.

Lemma emdexAttempt_err (E : env) (ep : string) (b : list (string * jv)) (isRetry : bool)
  (now : Z) (again : M jv) (s s' : st) (e : exn) :
  USE_MOCK E = false ->
  (forall s0 e0 s0', again s0 = (Err e0, s0') -> exists c, e0 = EmdexError c) ->
  emdexAttempt E ep b isRetry now again s = (Err e, s') -> exists c, e = EmdexError c.
Proof.
  intros Hm Hk.
  destruct (env_str (EMDEX_API_URL E)) as [apiUrl|] eqn:Hu.
  2: { unfold emdexAttempt. rewrite Hm, Hu. unfold throw. intros H. injection H; intros; subst. eauto. }
  rewrite (emdexAttempt_unfold E ep b isRetry now again s apiUrl Hm Hu).
  destruct (getToken E now s) as [[tok|e0] s1].
  2: { intros H. injection H; intros; subst. destruct e0; simpl; eauto. }
  cbv zeta. destruct (upstream E (length (sent s1))) as [|status rb].
  { intros H. injection H; intros; subst. eauto. }
  destruct ((status =? 401) && negb isRetry); [apply Hk|].
  destruct (ok_status status); simpl; [destruct rb|];
    intros H; injection H; intros; subst; eauto; discriminate.
Qed.

Lemma emdexRequest_err (E : env) (ep : string) (b : list (string * jv)) (isRetry : bool)
  (now : Z) (s s' : st) (e : exn) :
  USE_MOCK E = false ->
  emdexRequest E ep b isRetry now s = (Err e, s') -> exists c, e = EmdexError c.
Proof.
  intros Hm. unfold emdexRequest. apply emdexAttempt_err; [exact Hm|].
  intros s0 e0 s0'. apply emdexAttempt_err; [exact Hm|].
  intros s1 e1 s1' H. unfold throw in H. injection H; intros; subst. eauto.
Qed.

Lemma cachedEmdexRequest_hit (E : env) (ep : string) (b : list (string * jv))
  (ttlSeconds now : Z) (s : st) :
  let key := cacheKeyOf ep b in
  let r := get (cache s) key now in
  truthy (fst r) = true ->
  cachedEmdexRequest E ep b ttlSeconds now s =
    (Ok (annotate (fst r) (cache_meta true key (fst (getTTL (snd r) key now)))),
     mkSt (cachedToken s) (tokenExpiresAt s) (snd r) (sent s) (mockData s)).
Proof.
  cbv zeta. unfold cachedEmdexRequest, bind, get_st, set_cache, ret.
  destruct (get (cache s) (cacheKeyOf ep b) now) as [cd c1]. simpl. intros H. rewrite H. reflexivity.
Qed.

Lemma cachedEmdexRequest_miss (E : env) (ep : string) (b : list (string * jv))
  (ttlSeconds now : Z) (s : st) :
  let key := cacheKeyOf ep b in
  let r := get (cache s) key now in
  truthy (fst r) = false ->
  cachedEmdexRequest E ep b ttlSeconds now s =
    match emdexRequest E ep b false now (mkSt (cachedToken s) (tokenExpiresAt s) (snd r) (sent s) (mockData s)) with
    | (Err e, s2) => (Err e, s2)
    | (Ok v, s2) =>
        (Ok (annotate v (cache_meta false key ttlSeconds)),
         if truthy v && negb (truthy (get_prop v "error")) then
           mkSt (cachedToken s2) (tokenExpiresAt s2) (set (cache s2) key v ttlSeconds now) (sent s2) (mockData s2)
         else s2)
    end.
Proof.
  cbv zeta. unfold cachedEmdexRequest, bind, get_st, set_cache, ret.
  destruct (get (cache s) (cacheKeyOf ep b) now) as [cd c1]. simpl. intros H. rewrite H.
  destruct (emdexRequest E ep b false now _) as [[v|e] s2]; [|reflexivity].
  destruct (truthy v && negb (truthy (get_prop v "error"))); reflexivity.
Qed.

Lemma cachedEmdexRequest_err (E : env) (ep : string) (b : list (string * jv))
  (ttlSeconds now : Z) (s s' : st) (e : exn) :
  USE_MOCK E = false ->
  cachedEmdexRequest E ep b ttlSeconds now s = (Err e, s') -> exists c, e = EmdexError c.
Proof.
  intros Hm. destruct (truthy (fst (get (cache s) (cacheKeyOf ep b) now))) eqn:Ht.
  - rewrite (cachedEmdexRequest_hit E ep b ttlSeconds now s Ht). discriminate.
  - rewrite (cachedEmdexRequest_miss E ep b ttlSeconds now s Ht).
    destruct (emdexRequest E ep b false now _) as [[v|e0] s2] eqn:Hr; [discriminate|].
    intros H. injection H; intros; subst. eapply emdexRequest_err; [exact Hm|exact Hr].
Qed.

Lemma loadMockData_ok (E : env) (s : st) : exists d s1, loadMockData E s = (Ok d, s1).
Proof.
  unfold loadMockData, bind, get_st, set_mockData, ret.
  destruct (truthy (mockData s)); [eauto|].
  destruct (mock_drugs_file E) as [v|]; [|eauto].
  unfold try_catch.
  match goal with
  | |- exists _ _, match ?x with _ => _ end = _ => destruct x as [[a|e] s2]
  end; eauto.
Qed.

(** [!query || query.trim() === ''] *)
Lemma nonblank_none (q : jv) (s : st) :
  (truthy q = false \/ exists t, q = JStr t /\ trim t = ""%string) -> nonblank q s = (Ok None, s).
Proof.
  intros [Hf | (t & -> & Ht)]; unfold nonblank.
  - rewrite Hf. reflexivity.
  - destruct (truthy (JStr t)); [|reflexivity]. unfold bind, as_string, ret. rewrite Ht. reflexivity.
Qed.

(** [query.trim] on a truthy value that is not a string throws. *)
Lemma nonblank_fail (q : jv) (s : st) :
  truthy q = true -> (forall t, q <> JStr t) -> nonblank q s = (Err OtherError, s).
Proof.
  intros Ht Hn. unfold nonblank. rewrite Ht.
  destruct q; try reflexivity. exfalso. exact (Hn _ eq_refl).
Qed.

Lemma bind_ok {A B} (m : M A) (k : A -> M B) (s : st) (a : A) (s1 : st) :
  m s = (Ok a, s1) -> bind m k s = k a s1.
Proof. intros H. unfold bind. rewrite H. reflexivity. Qed.

Lemma bind_err {A B} (m : M A) (k : A -> M B) (s : st) (e : exn) (s1 : st) :
  m s = (Err e, s1) -> bind m k s = (Err e, s1).
Proof. intros H. unfold bind. rewrite H. reflexivity. Qed.

End EmdexExtraFacts.

(** ** Further properties of the code *)

Module Extras.
Import CacheService CacheFacts Emdex EmdexFacts Scenarios Transformer.
Import ExtraDefs ExtraFacts EmdexExtraFacts.

(** *** The cache *)

(** [set] then [get] of the same key, at any time up to the entry's
    [expiresAt], returns the stored value and counts a hit; the map is not
    changed. *)
Theorem set_then_get_hit (c : cstate) (k : string) (d : jv) (t now now' : Z)
  (Hwin : now' <= now + t * 1000) :
  get (set c k d t now) k now' =
    (d, mkC (store (set c k d t now)) (incr_hits (stats (set c k d t now)))).
Proof.
  unfold get at 1. rewrite set_map_get_same. cbn [expiresAt data].
  destruct (Z.ltb_spec (now + t * 1000) now'); [lia|reflexivity].
Qed.

Lemma set_then_get_hit_witness :
  0 + 60 * 1000 >= 59000 /\
  get (set init "k" (JNum 1) 60 0) "k" 59000 =
    (JNum 1, mkC (store (set init "k" (JNum 1) 60 0)) (incr_hits (stats (set init "k" (JNum 1) 60 0)))).
Proof. split; [lia|]. apply set_then_get_hit. lia. Defined.

(** On a reachable cache, [set] then [get] of the same key after the
    entry's [expiresAt] returns [null], removes the entry (one entry fewer)
    and counts a miss. *)
Theorem set_then_get_expired (c : cstate) (k : string) (d : jv) (t now now' : Z)
  (HI : Inv c) (Hlate : now + t * 1000 < now') :
  let c1 := set c k d t now in
  fst (get c1 k now') = JNull /\
  map_get (store (snd (get c1 k now'))) k = None /\
  size (snd (get c1 k now')) = size c1 - 1 /\
  stats (snd (get c1 k now')) = incr_misses (stats c1).
Proof.
  cbv zeta. destruct (set_Inv c k d t now HI) as [Hnd _].
  pose proof (set_map_get_same c k d t now) as Hg.
  destruct (get_has_after_expiry (set c k d t now) k _ now' Hnd Hg) as (H1 & _ & _ & H4);
    [simpl; lia|].
  assert (Hget : get (set c k d t now) k now' =
                 (JNull, mkC (snd (map_delete (store (set c k d t now)) k))
                             (incr_misses (stats (set c k d t now))))).
  { unfold get at 1. rewrite Hg. cbn [expiresAt].
    destruct (Z.ltb_spec (now + t * 1000) now'); [reflexivity|lia]. }
  split; [exact H1|]. split; [|split; [exact H4|]].
  - rewrite Hget. simpl. apply map_get_delete_same, Hnd.
  - rewrite Hget. reflexivity.
Qed.

Lemma set_then_get_expired_witness :
  Inv init /\ 0 + 60 * 1000 < 61000 /\
  fst (get (set init "k" (JNum 1) 60 0) "k" 61000) = JNull /\
  map_get (store (snd (get (set init "k" (JNum 1) 60 0) "k" 61000))) "k" = None /\
  size (snd (get (set init "k" (JNum 1) 60 0) "k" 61000)) = size (set init "k" (JNum 1) 60 0) - 1 /\
  stats (snd (get (set init "k" (JNum 1) 60 0) "k" 61000)) =
    incr_misses (stats (set init "k" (JNum 1) 60 0)).
Proof.
  assert (HI : Inv init) by (split; [constructor | unfold size, MAX_CACHE_SIZE; simpl; lia]).
  assert (Hl : 0 + 60 * 1000 < 61000) by lia.
  split; [exact HI|]. split; [exact Hl|].
  exact (set_then_get_expired init "k" (JNum 1) 60 0 61000 HI Hl).
Defined.

(** [has] agrees with [get]: both leave the same map (an expired entry is
    removed by both), [has] changes no counter, and [has] answers [true]
    exactly when [get] would count a hit. *)
Theorem has_agrees_with_get (c : cstate) (k : string) (now : Z) :
  store (snd (has c k now)) = store (snd (get c k now)) /\
  stats (snd (has c k now)) = stats c /\
  (fst (has c k now) = true <-> stats (snd (get c k now)) = incr_hits (stats c)) /\
  (fst (has c k now) = true -> exists it, map_get (store c) k = Some it /\ fst (get c k now) = data it).
Proof.
  unfold has, get. destruct (map_get (store c) k) as [it|] eqn:Hg.
  - destruct (expiresAt it <? now); simpl.
    + repeat split; try reflexivity; try discriminate.
      intros H. injection H. lia.
    + repeat split; try reflexivity. intros _. exists it. auto.
  - simpl. repeat split; try reflexivity; try discriminate.
    intros H. injection H. lia.
Qed.

(** On a map with each key once, [del] returns [true] exactly when the key
    was present, leaves the key absent and every other key as it was, keeps
    the counters, and shrinks the map by one entry when it removed one. *)
Theorem del_spec (c : cstate) (k : string) (Hnd : NoDup (keys (store c))) :
  (fst (del c k) = true <-> map_get (store c) k <> None) /\
  map_get (store (snd (del c k))) k = None /\
  (forall k', k' <> k -> map_get (store (snd (del c k))) k' = map_get (store c) k') /\
  stats (snd (del c k)) = stats c /\
  size (snd (del c k)) = size c - (if fst (del c k) then 1 else 0).
Proof.
  rewrite del_eq. simpl. split; [apply map_delete_found|]. split; [apply map_get_delete_same, Hnd|].
  split; [intros k' Hne; apply map_get_delete_other, Hne|]. split; [reflexivity|].
  unfold size. simpl. pose proof (map_delete_length_exact (store c) k) as Hl.
  destruct (fst (map_delete (store c) k)); lia.
Qed.

Lemma del_spec_witness :
  NoDup (keys (store (set init "k" (JNum 1) 60 0))) /\
  fst (del (set init "k" (JNum 1) 60 0) "k") = true /\
  size (snd (del (set init "k" (JNum 1) 60 0) "k")) = 0.
Proof.
  assert (Hnd : NoDup (keys (store (set init "k" (JNum 1) 60 0)))) by (repeat constructor; simpl; tauto).
  destruct (del_spec (set init "k" (JNum 1) 60 0) "k" Hnd) as [[_ Hf] [_ [_ [_ Hs]]]].
  assert (Hfound : fst (del (set init "k" (JNum 1) 60 0) "k") = true) by (apply Hf; discriminate).
  split; [exact Hnd|]. split; [exact Hfound|]. rewrite Hs, Hfound. reflexivity.
Defined.

(** Right after [set(key, data, ttl)], [getTTL(key)] is [ttl] (or [0] for a
    non-positive [ttl]); at any later time it lies between [0] and that
    value, and it is [0] exactly once the clock has reached the entry's
    [expiresAt]. *)
Theorem getTTL_after_set (c : cstate) (k : string) (d : jv) (t now now' : Z)
  (Hlater : now <= now') :
  let c1 := set c k d t now in
  fst (getTTL c1 k now) = Z.max t 0 /\
  0 <= fst (getTTL c1 k now') <= Z.max t 0 /\
  (fst (getTTL c1 k now') = 0 <-> now + t * 1000 <= now').
Proof.
  cbv zeta. unfold getTTL. rewrite set_map_get_same. cbn [expiresAt fst]. split.
  - replace (now + t * 1000 - now) with (t * 1000) by lia.
    destruct (Z.ltb_spec 0 (t * 1000)) as [Ht0|Ht0].
    + rewrite Z.div_add_l by lia. rewrite (Z.div_small 999 1000) by lia. rewrite Z.max_l by lia. lia.
    + rewrite Z.max_r by lia. lia.
  - destruct (Z.ltb_spec 0 (now + t * 1000 - now')) as [Hp|Hp].
    + pose proof (ceil_div_bounds (now + t * 1000 - now') t Hp ltac:(lia)). lia.
    + lia.
Qed.

Lemma getTTL_after_set_witness :
  1000 <= 31000 /\
  fst (getTTL (set init "k" (JNum 1) 60 1000) "k" 1000) = Z.max 60 0 /\
  0 <= fst (getTTL (set init "k" (JNum 1) 60 1000) "k" 31000) <= Z.max 60 0 /\
  (fst (getTTL (set init "k" (JNum 1) 60 1000) "k" 31000) = 0 <-> 1000 + 60 * 1000 <= 31000).
Proof.
  assert (H : 1000 <= 31000) by lia. split; [exact H|].
  exact (getTTL_after_set init "k" (JNum 1) 60 1000 31000 H).
Defined.

(** [getTTL(key)] returns [0] exactly when the key is absent or its entry's
    [expiresAt] is not after [now]; otherwise it is at least [1]. *)
Theorem getTTL_zero_iff (c : cstate) (k : string) (now : Z) :
  (fst (getTTL c k now) = 0 <->
   map_get (store c) k = None \/
   exists it, map_get (store c) k = Some it /\ expiresAt it <= now) /\
  0 <= fst (getTTL c k now).
Proof.
  unfold getTTL. destruct (map_get (store c) k) as [it|] eqn:Hg; simpl.
  - destruct (Z.ltb_spec 0 (expiresAt it - now)) as [Hp|Hp].
    + assert (Hq : 1 <= (expiresAt it - now + 999) / 1000)
        by (apply Z.div_le_lower_bound; lia).
      split; [|lia]. split.
      * intros H. lia.
      * intros [H|[it' [H Hle]]]; [discriminate|]. injection H as <-. lia.
    + split; [|lia]. split; [intros _; right; exists it; split; [reflexivity|lia]|reflexivity].
  - split; [|lia]. split; [intros _; left; reflexivity|reflexivity].
Qed.

(** While the cache holds fewer than [MAX_CACHE_SIZE] entries, [set] evicts
    nothing: every other key keeps its entry, the map grows by one entry
    exactly when the key was new, and only the [sets] counter moves. *)
Theorem set_frame (c : cstate) (k : string) (d : jv) (t now : Z)
  (Hroom : size c < MAX_CACHE_SIZE) :
  (forall k', k' <> k -> map_get (store (set c k d t now)) k' = map_get (store c) k') /\
  size (set c k d t now) = size c + (match map_get (store c) k with Some _ => 0 | None => 1 end) /\
  stats (set c k d t now) = incr_sets (stats c).
Proof.
  unfold set. destruct (Z.leb_spec MAX_CACHE_SIZE (size c)) as [H|_]; [lia|]. simpl.
  split; [intros k' Hne; apply map_get_set_other, Hne|]. split; [|reflexivity].
  unfold size. simpl. rewrite map_set_length_exact.
  destruct (map_get (store c) k); lia.
Qed.

Lemma set_frame_witness :
  size (set init "a" (JNum 1) 60 0) < MAX_CACHE_SIZE /\
  size (set (set init "a" (JNum 1) 60 0) "b" (JNum 2) 60 0) = 2.
Proof.
  assert (H : size (set init "a" (JNum 1) 60 0) < MAX_CACHE_SIZE) by (vm_compute; reflexivity).
  split; [exact H|].
  destruct (set_frame (set init "a" (JNum 1) 60 0) "b" (JNum 2) 60 0 H) as [_ [Hs _]].
  rewrite Hs. reflexivity.
Defined.

(** [generateKey] already lowercases and trims every value: replacing each
    string value by its lowercased, trimmed form gives the same key. *)
Theorem generateKey_normalized_values (prefix : string) (params : list (string * jv)) :
  generateKey prefix (map (fun p => (fst p, norm_value (snd p))) params) =
  generateKey prefix params.
Proof.
  unfold generateKey, normalizedParts.
  replace (map fst (map (fun p => (fst p, norm_value (snd p))) params)) with (map fst params)
    by (rewrite map_map; reflexivity).
  assert (Hf : forall l,
    flat_map (fun key => match normalize_part (map (fun p => (fst p, norm_value (snd p))) params) key with
                         | Some p => [p]
                         | None => []
                         end) l =
    flat_map (fun key => match normalize_part params key with
                         | Some p => [p]
                         | None => []
                         end) l).
  { intros l. apply flat_map_ext. intros key. rewrite normalize_part_norm. reflexivity. }
  rewrite Hf. reflexivity.
Qed.

(** *** The EMDEX service *)

(** [clearTokenCache()] drops the token and its expiry and nothing else; the
    next [getToken()] then fails with [AUTH_FAILED] when the credentials are
    not configured, and otherwise sends exactly one login request. *)
Theorem clearTokenCache_forces_login (E : env) (now : Z) (s : st) :
  let s' := snd (clearTokenCache s) in
  fst (clearTokenCache s) = Ok tt /\
  cachedToken s' = JNull /\ tokenExpiresAt s' = ExpNull /\
  cache s' = cache s /\ sent s' = sent s /\
  (credentials E = None -> getToken E now s' = (Err (EmdexError AUTH_FAILED), s')) /\
  (forall u em p, credentials E = Some (u, em, p) ->
     sent (snd (getToken E now s')) = (sent s ++ [LoginReq (u ++ "/api/v1/login") em p])%list).
Proof.
  cbv zeta. unfold clearTokenCache, clear_token, set_token. simpl.
  repeat split; try reflexivity.
  - intros Hc. apply getToken_no_credentials; [reflexivity|exact Hc].
  - intros u em p Hc.
    rewrite (getToken_login E now (mkSt JNull ExpNull (cache s) (sent s) (mockData s)) u em p eq_refl Hc).
    rewrite login_outcome_sent. reflexivity.
Qed.

(** With [USE_MOCK] set, [emdexRequest] runs the mock service: it sends no
    request and leaves the token, its expiry and the response cache as they
    are, and a rejection is the mock's own error, never an [EmdexError].  A
    brand or generic search whose [query] is falsy or blank answers with no
    results; one whose [query] is truthy but not a string rejects
    ([query.trim] is not a function). *)
Theorem emdexRequest_mock_mode (E : env) (ep : string) (b : list (string * jv))
  (isRetry : bool) (now : Z) (s : st) (Hmock : USE_MOCK E = true) :
  let r := emdexRequest E ep b isRetry now s in
  same_but_mock s (snd r) /\
  (forall e, fst r = Err e -> e = OtherError) /\
  (ep = "/api/v1/brands/search"%string \/ ep = "/api/v1/generic/search"%string ->
     (truthy (prop_lookup b "query") = false -> fst r = Ok (search_answer [])) /\
     (forall q, prop_lookup b "query" = JStr q -> trim q = ""%string -> fst r = Ok (search_answer [])) /\
     (truthy (prop_lookup b "query") = true -> (forall q, prop_lookup b "query" <> JStr q) ->
        fst r = Err OtherError)).
Proof.
  cbv zeta.
  assert (Hr : emdexRequest E ep b isRetry now s = mockEmdexRequest E ep b now s).
  { unfold emdexRequest, emdexAttempt. rewrite Hmock. reflexivity. }
  rewrite Hr.
  destruct (mock_step_mockEmdexRequest E ep b now s) as [Hs He].
  split; [exact Hs|]. split; [exact He|].
  intros Hep. destruct (loadMockData_ok E s) as (d & s1 & Hl).
  destruct Hep as [-> | ->];
    [replace (mockEmdexRequest E "/api/v1/brands/search"%string b now)
       with (mockBrandSearch E (prop_lookup b "query"%string)) by reflexivity;
     unfold mockBrandSearch
    |replace (mockEmdexRequest E "/api/v1/generic/search"%string b now)
       with (mockGenericSearch E (prop_lookup b "query"%string)) by reflexivity;
     unfold mockGenericSearch].
  all: rewrite (bind_ok _ _ _ _ _ Hl); cbv beta.
  all: split; [|split].
  1,4: intros Hf; rewrite (bind_ok _ _ _ _ _ (nonblank_none _ s1 (or_introl Hf))); reflexivity.
  1,3: intros t Hq Ht;
       rewrite (bind_ok _ _ _ _ _ (nonblank_none _ s1 (or_intror (ex_intro _ t (conj Hq Ht)))));
       reflexivity.
  all: intros Ht Hn; rewrite (bind_err _ _ _ _ _ (nonblank_fail _ s1 Ht Hn)); reflexivity.
Qed.

(** The mock mode with one brand on file: a search for [5] rejects, a
    search with no query finds nothing, and the data requests leave the token
    and the cache alone. *)
Lemma emdexRequest_mock_mode_witness :
  USE_MOCK E_mock = true /\
  fst (emdexRequest E_mock search_ep [("query"%string, JNum 5)] false 1000 s_empty) = Err OtherError /\
  fst (emdexRequest E_mock search_ep [] false 1000 s_empty) = Ok (search_answer []) /\
  fst (emdexRequest E_mock search_ep search_body false 1000 s_empty) = Ok (search_answer [mock_brand]).
Proof.
  assert (Hm : USE_MOCK E_mock = true) by reflexivity.
  split; [exact Hm|]. split; [|split].
  - destruct (proj2 (proj2 (emdexRequest_mock_mode E_mock search_ep [("query"%string, JNum 5)] false 1000
                               s_empty Hm)) (or_introl eq_refl)) as (_ & _ & H).
    apply H; [reflexivity|discriminate].
  - destruct (proj2 (proj2 (emdexRequest_mock_mode E_mock search_ep [] false 1000 s_empty Hm))
                (or_introl eq_refl)) as (H & _ & _).
    apply H. reflexivity.
  - vm_compute. reflexivity.
Defined.

(** With [USE_MOCK] unset, every failure of [emdexRequest] and of
    [cachedEmdexRequest] is an [EmdexError]: a rejected [fetch], an
    unreadable body or a malformed login answer never reaches the caller
    unclassified.  Without [EMDEX_API_URL], [emdexRequest] fails with
    [REQUEST_FAILED] before sending anything, the state unchanged. *)
Theorem request_errors_classified (E : env) (ep : string) (b : list (string * jv))
  (isRetry : bool) (ttlSeconds now : Z) (s : st) (Hmock : USE_MOCK E = false) :
  (forall e s', emdexRequest E ep b isRetry now s = (Err e, s') -> exists c, e = EmdexError c) /\
  (forall e s', cachedEmdexRequest E ep b ttlSeconds now s = (Err e, s') -> exists c, e = EmdexError c) /\
  (env_str (EMDEX_API_URL E) = None ->
     emdexRequest E ep b isRetry now s = (Err (EmdexError REQUEST_FAILED), s)).
Proof.
  split; [|split].
  - intros e s' H. exact (emdexRequest_err E ep b isRetry now s s' e Hmock H).
  - intros e s' H. exact (cachedEmdexRequest_err E ep b ttlSeconds now s s' e Hmock H).
  - intros Hu. unfold emdexRequest, emdexAttempt. rewrite Hmock, Hu. reflexivity.
Qed.

(** A second 401 whose body cannot be read: the failure reaches the caller
    as [NETWORK_ERROR]. *)
Lemma request_errors_classified_witness :
  USE_MOCK E_401_cut = false /\
  exists c, fst (emdexRequest E_401_cut search_ep search_body false 1000 s_empty) = Err (EmdexError c).
Proof.
  assert (Hm : USE_MOCK E_401_cut = false) by reflexivity.
  split; [exact Hm|].
  assert (H : emdexRequest E_401_cut search_ep search_body false 1000 s_empty =
                (Err (EmdexError NETWORK_ERROR),
                 snd (emdexRequest E_401_cut search_ep search_body false 1000 s_empty)))
    by (vm_compute; reflexivity).
  destruct (proj1 (request_errors_classified E_401_cut search_ep search_body false 3600 1000 s_empty Hm)
              _ _ H) as [c Hc].
  exists c. rewrite H. simpl. rewrite Hc. reflexivity.
Defined.



(** A cached request that misses, gets a truthy answer without a truthy
    [error] field and stores it, is answered from the cache by the next
    identical request made no later than [ttl] seconds afterwards: the same
    payload marked [hit: true] with the remaining seconds, no request sent,
    the token untouched. *)
Theorem cached_miss_then_hit (E : env) (ep : string) (b : list (string * jv))
  (ttl ttl' now now' : Z) (s s2 : st) (r : jv) :
  let key := cacheKeyOf ep b in
  let s1 := mkSt (cachedToken s) (tokenExpiresAt s) (snd (get (cache s) key now)) (sent s) (mockData s) in
  let s3 := mkSt (cachedToken s2) (tokenExpiresAt s2) (set (cache s2) key r ttl now) (sent s2)
              (mockData s2) in
  truthy (fst (get (cache s) key now)) = false ->
  emdexRequest E ep b false now s1 = (Ok r, s2) ->
  truthy r = true -> truthy (get_prop r "error") = false ->
  now' <= now + ttl * 1000 ->
  cachedEmdexRequest E ep b ttl now s = (Ok (annotate r (cache_meta false key ttl)), s3) /\
  cachedEmdexRequest E ep b ttl' now' s3 =
    (Ok (annotate r (cache_meta true key
           (if 0 <? now + ttl * 1000 - now' then (now + ttl * 1000 - now' + 999) / 1000 else 0))),
     mkSt (cachedToken s2) (tokenExpiresAt s2) (snd (get (cache s3) key now')) (sent s2) (mockData s2)).
Proof.
  intros key s1 s3 Hmiss Hr Ht He Hwin.
  pose proof (set_get_before_expiry (cache s2) key r ttl now now' Hwin) as Hg.
  split.
  - rewrite (cachedEmdexRequest_miss E ep b ttl now s Hmiss). fold key. fold s1.
    rewrite Hr, Ht, He. reflexivity.
  - assert (Hh : truthy (fst (get (cache s3) key now')) = true).
    { unfold s3. simpl cache. rewrite Hg. exact Ht. }
    rewrite (cachedEmdexRequest_hit E ep b ttl' now' s3 Hh). fold key.
    unfold s3 at 1. simpl cache. rewrite Hg. simpl fst. unfold getTTL. simpl store.
    rewrite map_get_set_same. reflexivity.
Qed.

Lemma cached_miss_then_hit_witness :
  let key := cacheKeyOf search_ep search_body in
  let s1 := mkSt (cachedToken s_empty) (tokenExpiresAt s_empty) (snd (get (cache s_empty) key 1000))
              (sent s_empty) (mockData s_empty) in
  let s2 := snd (emdexRequest E_search_ok search_ep search_body false 1000 s1) in
  let s3 := mkSt (cachedToken s2) (tokenExpiresAt s2) (set (cache s2) key search_payload 3600 1000)
              (sent s2) (mockData s2) in
  cachedEmdexRequest E_search_ok search_ep search_body 3600 1000 s_empty =
    (Ok (annotate search_payload (cache_meta false key 3600)), s3) /\
  cachedEmdexRequest E_search_ok search_ep search_body 3600 5000 s3 =
    (Ok (annotate search_payload (cache_meta true key 3596)),
     mkSt (cachedToken s2) (tokenExpiresAt s2) (snd (get (cache s3) key 5000)) (sent s2) (mockData s2)).
Proof.
  intros key s1 s2 s3.
  assert (Hmiss : truthy (fst (get (cache s_empty) key 1000)) = false) by (vm_compute; reflexivity).
  assert (Hr : emdexRequest E_search_ok search_ep search_body false 1000 s1 = (Ok search_payload, s2))
    by (vm_compute; reflexivity).
  assert (Ht : truthy search_payload = true) by reflexivity.
  assert (He : truthy (get_prop search_payload "error") = false) by reflexivity.
  assert (Hw : 5000 <= 1000 + 3600 * 1000) by lia.
  exact (cached_miss_then_hit E_search_ok search_ep search_body 3600 3600 1000 5000 s_empty s2
           search_payload Hmiss Hr Ht He Hw).
Defined.

(** *** The drug transformer *)

(** [parseAppDrugId] inverts the ids the transformer builds:
    ["emdex_brand_" + x] gives [("brand", x)] and ["emdex_generic_" + x]
    gives [("generic", x)], for every [x]. *)
Theorem parseAppDrugId_roundtrip (x : string) :
  parseAppDrugId (JStr ("emdex_brand_" ++ x)%string) = Some ("brand"%string, x) /\
  parseAppDrugId (JStr ("emdex_generic_" ++ x)%string) = Some ("generic"%string, x).
Proof. split; [apply parse_brand|apply parse_generic]. Qed.

(** [parseAppDrugId] recognises nothing else: when it returns [(type, id)],
    its argument is the string [type]'s prefix followed by [id]. *)
Theorem parseAppDrugId_sound (v : jv) (t x : string)
  (H : parseAppDrugId v = Some (t, x)) :
  (t = "brand"%string /\ v = JStr ("emdex_brand_" ++ x)%string) \/
  (t = "generic"%string /\ v = JStr ("emdex_generic_" ++ x)%string).
Proof.
  destruct v as [| | | |s| |]; try discriminate. revert H. unfold parseAppDrugId.
  destruct (negb (truthy (JStr s))); [discriminate|].
  destruct (String.prefix "emdex_brand_" s) eqn:Hb.
  - intros H. injection H as <- <-. left. destruct (prefix_inv _ _ Hb) as [r ->].
    rewrite replace_first_app by discriminate. split; reflexivity.
  - destruct (String.prefix "emdex_generic_" s) eqn:Hg; [|discriminate].
    intros H. injection H as <- <-. right. destruct (prefix_inv _ _ Hg) as [r ->].
    rewrite replace_first_app by discriminate. split; reflexivity.
Qed.

Lemma parseAppDrugId_sound_witness :
  parseAppDrugId (JStr "emdex_generic_99") = Some ("generic"%string, "99"%string) /\
  (("generic" = "brand" /\ JStr "emdex_generic_99" = JStr ("emdex_brand_" ++ "99")) \/
   ("generic" = "generic" /\ JStr "emdex_generic_99" = JStr ("emdex_generic_" ++ "99")))%string.
Proof.
  assert (H : parseAppDrugId (JStr "emdex_generic_99") = Some ("generic"%string, "99"%string))
    by reflexivity.
  split; [exact H|]. exact (parseAppDrugId_sound _ _ _ H).
Defined.

(** Every drug that [transformBrandResults] returns is a brand from EMDEX
    whose [id] [parseAppDrugId] reads back as a brand id, and likewise for
    [transformGenericResults] and generic ids. *)
Theorem transformed_ids_parse (tempIds : nat -> string) (v : jv) :
  (forall ds d, transformBrandResults tempIds v = Some ds -> In d ds ->
     get_prop d "type" = JStr "brand" /\ get_prop d "source" = JStr "emdex" /\
     exists x, parseAppDrugId (get_prop d "id") = Some ("brand"%string, x)) /\
  (forall ds d, transformGenericResults tempIds v = Some ds -> In d ds ->
     get_prop d "type" = JStr "generic" /\ get_prop d "source" = JStr "emdex" /\
     exists x, parseAppDrugId (get_prop d "id") = Some ("generic"%string, x)).
Proof.
  split; intros ds d H Hin.
  - destruct (brand_results_In _ _ _ _ H Hin) as (t & x & Hx & ->).
    destruct (brand_shape t x Hx) as (H1 & H2 & H3 & _).
    rewrite H1, H2, H3. split; [reflexivity|]. split; [reflexivity|]. eexists. apply parse_brand.
  - destruct (generic_results_In _ _ _ _ H Hin) as (t & x & Hx & ->).
    destruct (generic_shape t x Hx) as (H1 & H2 & H3 & _).
    rewrite H1, H2, H3. split; [reflexivity|]. split; [reflexivity|]. eexists. apply parse_generic.
Qed.

(** On an array, both transforms keep exactly the truthy elements, in their
    order: the [raw_data] of the results are the truthy input elements. *)
Theorem transform_array_keeps_truthy (tempIds : nat -> string) (l : list jv) :
  option_map (map (fun d => get_prop d "raw_data")) (transformBrandResults tempIds (JArr l)) =
    Some (filter truthy l) /\
  option_map (map (fun d => get_prop d "raw_data")) (transformGenericResults tempIds (JArr l)) =
    Some (filter truthy l).
Proof.
  unfold transformBrandResults, transformGenericResults. simpl. split; f_equal.
  - apply map_idx_raw; [apply is_null_brand|]. intros t x Hx. apply (brand_shape t x Hx).
  - apply map_idx_raw; [apply is_null_generic|]. intros t x Hx. apply (generic_shape t x Hx).
Qed.

(** A value that is not an array is unwrapped through its [data] field
    first: when [data] is truthy but not an array, both transforms throw (a
    [TypeError]); when none of [data], [results] and [brands] (resp.
    [generics]) is truthy, they return an empty list. *)
Theorem transform_wrappers (tempIds : nat -> string) (v : jv)
  (Hna : forall l, v <> JArr l) :
  (truthy (get_prop v "data") = true -> (forall l, get_prop v "data" <> JArr l) ->
     transformBrandResults tempIds v = None /\ transformGenericResults tempIds v = None) /\
  (truthy (get_prop v "data") = false -> truthy (get_prop v "results") = false ->
     truthy (get_prop v "brands") = false -> transformBrandResults tempIds v = Some []) /\
  (truthy (get_prop v "data") = false -> truthy (get_prop v "results") = false ->
     truthy (get_prop v "generics") = false -> transformGenericResults tempIds v = Some []).
Proof.
  assert (Hu : forall third, unwrap_results third v =
     if truthy v && truthy (get_prop v "data") then Some (get_prop v "data")
     else if truthy v && truthy (get_prop v "results") then Some (get_prop v "results")
     else if truthy v && truthy (get_prop v third) then Some (get_prop v third)
     else None).
  { intros third. destruct v; try reflexivity. exfalso. eapply Hna. reflexivity. }
  unfold transformBrandResults, transformGenericResults. rewrite !Hu.
  split; [|split].
  - intros Hd Hnd. rewrite Hd, andb_true_r.
    assert (Hv : truthy v = true) by (destruct v; try discriminate Hd; reflexivity).
    rewrite Hv. simpl. unfold map_filter.
    destruct (get_prop v "data"); try (split; reflexivity). exfalso. eapply Hnd. reflexivity.
  - intros H1 H2 H3. rewrite H1, H2, H3, !andb_false_r. reflexivity.
  - intros H1 H2 H3. rewrite H1, H2, H3, !andb_false_r. reflexivity.
Qed.

Lemma transform_wrappers_witness :
  transformBrandResults (fun _ => "tmp"%string) (JObj [("data"%string, JStr "x")]) = None /\
  transformGenericResults (fun _ => "tmp"%string) (JObj [("data"%string, JStr "x")]) = None.
Proof.
  assert (Hna : forall l, JObj [("data"%string, JStr "x")] <> JArr l) by discriminate.
  assert (Hd : truthy (get_prop (JObj [("data"%string, JStr "x")]) "data") = true) by reflexivity.
  assert (Hnd : forall l, get_prop (JObj [("data"%string, JStr "x")]) "data" <> JArr l)
    by discriminate.
  exact (proj1 (transform_wrappers (fun _ => "tmp"%string) _ Hna) Hd Hnd).
Defined.

(** [removeDuplicates] throws exactly when one of the drugs is [null] or
    [undefined] (reading its [nafdac_number] fails). *)
Theorem removeDuplicates_fails_iff_nullish (drugs : list jv) :
  removeDuplicates drugs = None <-> exists d, In d drugs /\ nullish d = true.
Proof. apply dedup_none. Qed.

(** What [removeDuplicates] returns is the input with some drugs left out,
    the others in their order; no two returned drugs share a key
    ([nafdac_number || id]); every input drug whose key is a primitive value
    has a returned drug with the same key (the first of them); and running
    it again changes nothing. *)
Theorem removeDuplicates_spec (drugs r : list jv) (H : removeDuplicates drugs = Some r) :
  subseq r drugs /\
  ForallOrdPairs (fun a b => same_value_zero (dedup_key a) (dedup_key b) = false) r /\
  (forall d, In d drugs -> is_prim (dedup_key d) = true ->
     exists d', In d' r /\ same_value_zero (dedup_key d) (dedup_key d') = true) /\
  removeDuplicates r = Some r.
Proof.
  destruct (dedup_spec [] drugs r H) as (Hsub & Hpairs & Hfresh & Hcomp).
  split; [exact Hsub|]. split; [exact Hpairs|]. split.
  - intros d Hd Hp. destruct (Hcomp d Hd Hp) as [Hs|Hs]; [discriminate|exact Hs].
  - unfold removeDuplicates. apply dedup_distinct; [|exact Hpairs|exact Hfresh].
    apply Forall_forall. intros d Hd. destruct (nullish d) eqn:Hn; [|reflexivity].
    exfalso. assert (Hnone : removeDuplicates drugs = None).
    { apply dedup_none. exists d. split; [|exact Hn]. eapply subseq_In; eassumption. }
    congruence.
Qed.

Lemma removeDuplicates_spec_witness :
  removeDuplicates [JObj [("id"%string, JNum 1)]; JObj [("id"%string, JNum 1); ("x"%string, JNum 2)]] =
    Some [JObj [("id"%string, JNum 1)]] /\
  removeDuplicates [JObj [("id"%string, JNum 1)]] = Some [JObj [("id"%string, JNum 1)]].
Proof.
  assert (H : removeDuplicates [JObj [("id"%string, JNum 1)]; JObj [("id"%string, JNum 1); ("x"%string, JNum 2)]] =
              Some [JObj [("id"%string, JNum 1)]]) by reflexivity.
  split; [exact H|]. exact (proj2 (proj2 (proj2 (removeDuplicates_spec _ _ H)))).
Defined.

(** The search handler merges brands then generics and removes duplicates:
    this never throws on transformer output, and the result starts with the
    deduplicated brands, followed by a subsequence of the generics, so a
    brand wins over a generic with the same key. *)
Theorem merged_results_dedup (t1 t2 : nat -> string) (v1 v2 : jv) (ds1 ds2 : list jv)
  (H1 : transformBrandResults t1 v1 = Some ds1) (H2 : transformGenericResults t2 v2 = Some ds2) :
  exists r1 r2, removeDuplicates ds1 = Some r1 /\
                removeDuplicates (ds1 ++ ds2) = Some (r1 ++ r2) /\ subseq r2 ds2.
Proof.
  destruct (removeDuplicates (ds1 ++ ds2)) as [r|] eqn:Hr.
  - destruct (dedup_app [] ds1 ds2 r Hr) as (r1 & r2 & seen' & Hr1 & Hr2 & ->).
    exists r1, r2. split; [exact Hr1|]. split; [reflexivity|].
    exact (proj1 (dedup_spec _ _ _ Hr2)).
  - exfalso. apply dedup_none in Hr. destruct Hr as [d [Hd Hn]].
    rewrite (results_not_nullish t1 t2 v1 v2 ds1 ds2 H1 H2 d Hd) in Hn. discriminate.
Qed.

(** One brand and two generics, the first generic with the brand's NAFDAC
    number: it is dropped, the brand and the other generic remain. *)
Lemma merged_results_dedup_witness :
  let ds1 := [transformEmdexBrand "tmp" search_brand] in
  let ds2 := [transformEmdexGeneric "tmp" generic_para; transformEmdexGeneric "tmp" generic_ibu] in
  transformBrandResults (fun _ => "tmp"%string) search_payload = Some ds1 /\
  transformGenericResults (fun _ => "tmp"%string) generic_payload = Some ds2 /\
  (exists r1 r2, removeDuplicates ds1 = Some r1 /\
                 removeDuplicates (ds1 ++ ds2) = Some (r1 ++ r2) /\ subseq r2 ds2) /\
  removeDuplicates (ds1 ++ ds2) =
    Some [transformEmdexBrand "tmp" search_brand; transformEmdexGeneric "tmp" generic_ibu].
Proof.
  intros ds1 ds2.
  assert (H1 : transformBrandResults (fun _ => "tmp"%string) search_payload = Some ds1)
    by reflexivity.
  assert (H2 : transformGenericResults (fun _ => "tmp"%string) generic_payload = Some ds2)
    by reflexivity.
  split; [exact H1|]. split; [exact H2|]. split.
  - exact (merged_results_dedup _ _ _ _ _ _ H1 H2).
  - vm_compute. reflexivity.
Defined.

(** [parseToArray] on a string returns non-empty, trimmed strings that hold
    no separator ([,], [;], newline); an array is returned as it is; any
    other value gives an empty list. *)
Theorem parseToArray_shape :
  (forall s x, In x (parseToArray (JStr s)) ->
     exists y, x = JStr y /\ y <> ""%string /\ trim y = y /\
               Forall (fun c => is_sep c = false) (list_ascii_of_string y)) /\
  (forall l, parseToArray (JArr l) = l) /\
  (forall v, match v with JStr _ | JArr _ => False | _ => True end -> parseToArray v = []).
Proof.
  split; [|split].
  - intros s x H. exact (parseToArray_str_In s x H).
  - intros l. reflexivity.
  - intros v Hv. destruct v as [| |[]| | | |]; try contradiction; try reflexivity.
    unfold parseToArray. simpl. destruct (negb (_ =? 0)); reflexivity.
Qed.

(** Joining non-empty, trimmed, separator-free items with commas and parsing
    the result with [parseToArray] gives the items back. *)
Theorem parseToArray_join (items : list string)
  (Hitems : Forall (fun x => x <> ""%string /\ trim x = x /\
                              Forall (fun c => is_sep c = false) (list_ascii_of_string x)) items) :
  parseToArray (JStr (String.concat "," items)) = map JStr items.
Proof.
  destruct items as [|x xs]; [reflexivity|].
  inversion Hitems as [|? ? [Hx _] _]; subst.
  unfold parseToArray.
  assert (Ht : truthy (JStr (String.concat "," (x :: xs))) = true).
  { unfold truthy. cbv beta iota.
    destruct (String.eqb_spec (String.concat "," (x :: xs)) EmptyString) as [e|n]; [|reflexivity].
    exfalso. exact (concat_comma_nonempty x xs Hx e). }
  rewrite Ht. simpl negb. cbv iota.
  rewrite split_join.
  2: discriminate.
  2: { eapply Forall_impl; [|exact Hitems]. intros y [Hy [_ Hs]]. split; [|exact Hs].
       intros E. apply Hy. rewrite <- (string_of_list_ascii_of_string y), E. reflexivity. }
  f_equal. clear Ht Hx.
  induction Hitems as [|y ys [Hy [Htr _]] _ IH]; [reflexivity|].
  simpl. rewrite string_of_list_ascii_of_string, Htr.
  destruct y as [|c y']; [congruence|]. simpl. f_equal. exact IH.
Qed.

Lemma parseToArray_join_witness :
  parseToArray (JStr (String.concat "," ["Paracetamol"; "Caffeine"]%string)) =
    map JStr ["Paracetamol"; "Caffeine"]%string.
Proof.
  apply parseToArray_join.
  repeat constructor; try discriminate; reflexivity.
Defined.

End Extras.
